(** * code-challenge: the arithmetic exercise (problem4) and the CRUD API (problem5)

    A shallow embedding of the TypeScript sources and the properties
    stated about them.

    - [Number]: the JavaScript [number] values the arithmetic functions
      meet on integer inputs (integer-valued IEEE 754 binary64 values,
      the infinities and NaN), with the rounding of every operation
      written out; [Binary64] holds the same functions over Rocq's
      primitive floats, against which [Number] is checked.
    - [sum_to_n_a], [sum_to_n_b], [sum_to_n_c]: src/problem4/index.ts.
    - [verifyToken], [generateToken]: src/problem5/src/utils/jwt.util.ts.
    - [errorHandler], [validate], [authMiddleware]: src/problem5/src/middleware.
    - [userService], [userController]: src/problem5/src/services/user.service.ts
      and the controller that calls it.
    - [authService]: src/problem5/src/services/auth.service.ts.
    - [limit_field]: the limit of [listUsersSchema],
      src/problem5/src/validators/user.validator.ts.

    src/problem6 is the description of a scoreboard service (README and
    design documents); it has no code, and nothing of it is embedded
    here. *)

From Stdlib Require Import ZArith Lia Bool.
From Stdlib Require Import PrimFloat Uint63.
From Equations Require Import Equations.
From stdpp Require Import base option list strings gmap.

Local Open Scope Z_scope.

(* ===================================================================== *)
(** * Part I. Definitions *)
(* ===================================================================== *)

(** ** JavaScript numbers on integer inputs

    A JavaScript [number] is an IEEE 754 binary64 value: 53 bits of
    significand, round to nearest, ties to even.  Every integer of
    magnitude at most [2^53] is a [number]; above it only the multiples
    of a growing power of two are.  The result of [+], [-] and [*] is the
    exact result rounded ([fl]).  The model covers the integer-valued
    numbers, the two infinities and NaN; numbers with a fractional part
    and the sign of zero are outside it. *)
Module Number.

Inductive number : Type :=
| Int (z : Z)
| PosInfinity
| NegInfinity
| NaN.

(** Number.MAX_SAFE_INTEGER = 2^53 - 1. *)
Definition MAX_SAFE_INTEGER : Z := 9007199254740991.

(** Round to nearest, ties to even, of [q + r / (2 * h)] where
    [0 <= r < 2 * h]. *)
Definition round_half_even (q r h : Z) : Z :=
  if r <? h then q
  else if h <? r then q + 1
  else if Z.even q then q else q + 1.

(** The integer [z] rounded to a 53-bit significand, exponent unbounded. *)
Definition round53 (z : Z) : Z :=
  let a := Z.abs z in
  if a <? 2 ^ 53 then z
  else
    let e := Z.log2 a - 52 in
    let q := a / 2 ^ e in
    let r := a mod 2 ^ e in
    Z.sgn z * (round_half_even q r (2 ^ (e - 1)) * 2 ^ e).

(** The [number] nearest to the exact integer result [z]: a rounded
    magnitude of [2^1024] or more is an infinity. *)
Definition fl (z : Z) : number :=
  let r := round53 z in
  if 2 ^ 1024 <=? r then PosInfinity
  else if r <=? - 2 ^ 1024 then NegInfinity
  else Int r.

(** [z] is a [number]. *)
Definition representable (z : Z) : Prop := fl z = Int z.

Definition neg (x : number) : number :=
  match x with
  | Int z => Int (- z)
  | PosInfinity => NegInfinity
  | NegInfinity => PosInfinity
  | NaN => NaN
  end.

(** [x + y] *)
Definition add (x y : number) : number :=
  match x, y with
  | NaN, _ | _, NaN => NaN
  | Int a, Int b => fl (a + b)
  | PosInfinity, NegInfinity | NegInfinity, PosInfinity => NaN
  | PosInfinity, _ | _, PosInfinity => PosInfinity
  | NegInfinity, _ | _, NegInfinity => NegInfinity
  end.

(** [x - y] *)
Definition sub (x y : number) : number := add x (neg y).

(** [x * y] *)
Definition mul (x y : number) : number :=
  match x, y with
  | NaN, _ | _, NaN => NaN
  | Int a, Int b => fl (a * b)
  | Int a, PosInfinity | PosInfinity, Int a =>
      if a =? 0 then NaN else if 0 <? a then PosInfinity else NegInfinity
  | Int a, NegInfinity | NegInfinity, Int a =>
      if a =? 0 then NaN else if 0 <? a then NegInfinity else PosInfinity
  | PosInfinity, PosInfinity | NegInfinity, NegInfinity => PosInfinity
  | PosInfinity, NegInfinity | NegInfinity, PosInfinity => NegInfinity
  end.

(** [x / 2].  Halving is exact in binary64; on an even integer the
    result is again an integer.  The one division of the program,
    in [sum_to_n_b], is applied to an even value
    (lemma [mul_succ_even]). *)
Definition half (x : number) : number :=
  match x with
  | Int z => Int (z / 2)
  | _ => x
  end.

(** [x <= y]: false as soon as one side is NaN. *)
Definition le (x y : number) : bool :=
  match x, y with
  | NaN, _ | _, NaN => false
  | Int a, Int b => a <=? b
  | NegInfinity, _ | _, PosInfinity => true
  | _, _ => false
  end.

End Number.

Import Number.

(** ** src/problem4/index.ts *)

(** The [for] loop of [sum_to_n_a]: [i <= n] is tested, then [sum += i],
    then [i++].  [fuel] bounds the number of tests; [None] is a loop
    still running when the fuel is spent. *)
Fixpoint sum_to_n_a_loop (fuel : nat) (n i sum : number) : option number :=
  match fuel with
  | O => None
  | S fuel' =>
      if le i n
      then sum_to_n_a_loop fuel' n (add i (Int 1)) (add sum i)
      else Some sum
  end.

(** Implementation A: [let sum = 0; for (let i = 1; i <= n; i++) sum += i;
    return sum]. *)
Definition sum_to_n_a (fuel : nat) (n : number) : option number :=
  sum_to_n_a_loop fuel n (Int 1) (Int 0).

(** Implementation B: [if (n <= 0) return 0; return (n * (n + 1)) / 2]. *)
Definition sum_to_n_b (n : number) : number :=
  if le n (Int 0) then Int 0
  else half (mul n (add n (Int 1))).

(** Implementation C: [if (n <= 0) return 0; return n + sum_to_n_c(n - 1)].
    [fuel] is the number of nested calls the call stack has room for;
    [None] is a call that does not return on that stack: the stack
    overflows before the recursion reaches its base case (the engine's
    RangeError the source's comment warns of), whether or not a deeper
    stack would reach it. *)
Fixpoint sum_to_n_c (fuel : nat) (n : number) : option number :=
  match fuel with
  | O => None
  | S fuel' =>
      if le n (Int 0) then Some (Int 0)
      else
        match sum_to_n_c fuel' (sub n (Int 1)) with
        | Some r => Some (add n r)
        | None => None
        end
  end.

(** The n-th triangular number, over the mathematical integers. *)
Definition triangular (n : Z) : Z := n * (n + 1) / 2.

(** The recursion of [sum_to_n_c] as a total function, by well-founded
    recursion on the integer [n]: each call is on the exact [n - 1], and
    the sums are those of [number]. *)
#[local] Unset Equations With Funext.
#[local] Set Warnings "-solve_obligation_error".
Equations? sum_to_n_c_wf (n : Z) : number by wf (Z.to_nat n) lt :=
  sum_to_n_c_wf n with Z_le_gt_dec n 0 := {
    | left _ => Int 0
    | right _ => add (Int n) (sum_to_n_c_wf (n - 1)) }.
Proof. lia. Qed.
Next Obligation.
  (* the unfolding equation, without functional extensionality *)
  intros n. unfold sum_to_n_c_wf. unfold_recursor.
  - destruct (Z_le_gt_dec x 0); cbn; [reflexivity |]. rewrite H0. reflexivity.
  - unfold sum_to_n_c_wf_unfold. destruct (Z_le_gt_dec n 0); reflexivity.
Defined.
#[local] Set Warnings "+solve_obligation_error".

(** The same three functions over Rocq's primitive binary64 floats, whose
    operations are the IEEE 754 ones: used to check [Number] against the
    hardware arithmetic at the inputs discussed below. *)
Module Binary64.
Local Open Scope float_scope.

(** The binary64 value nearest to [z], for [|z| < 2^63]. *)
Definition of_Z (z : Z) : float :=
  if (z <? 0)%Z then - PrimFloat.of_uint63 (Uint63.of_Z (- z))
  else PrimFloat.of_uint63 (Uint63.of_Z z).

Definition sum_to_n_b (n : float) : float :=
  if n <=? 0 then 0 else (n * (n + 1)) / 2.

Fixpoint sum_to_n_a_loop (fuel : nat) (n i sum : float) : option float :=
  match fuel with
  | O => None
  | S fuel' =>
      if i <=? n then sum_to_n_a_loop fuel' n (i + 1) (sum + i)
      else Some sum
  end.

Definition sum_to_n_a (fuel : nat) (n : float) : option float :=
  sum_to_n_a_loop fuel n 1 0.

Fixpoint sum_to_n_c (fuel : nat) (n : float) : option float :=
  match fuel with
  | O => None
  | S fuel' =>
      if n <=? 0 then Some 0
      else
        match sum_to_n_c fuel' (n - 1) with
        | Some r => Some (n + r)
        | None => None
        end
  end.

End Binary64.

(** [fl z] is the binary64 value nearest to [z]. *)
Definition fl_agrees (z : Z) : bool :=
  match fl z with
  | Int r => Leibniz.eqb (Binary64.of_Z r) (Binary64.of_Z z)
  | _ => false
  end.

(** [z] is a number, decided. *)
Definition representableb (z : Z) : bool :=
  match fl z with
  | Int r => r =? z
  | _ => false
  end.

(** On numbers [a] and [b], [add] and [sub] give what [+] and [-]
    give. *)
Definition sums_agree (a b : Z) : bool :=
  if representableb a && representableb b then
    match add (Int a) (Int b), sub (Int a) (Int b) with
    | Int s, Int d =>
        Leibniz.eqb (Binary64.of_Z s) (Binary64.of_Z a + Binary64.of_Z b)
        && Leibniz.eqb (Binary64.of_Z d) (Binary64.of_Z a - Binary64.of_Z b)
    | _, _ => false
    end
  else true.

(** On numbers [a] and [b] with [|a * b| < 2^63], [mul] gives what [*]
    gives. *)
Definition products_agree (a b : Z) : bool :=
  if representableb a && representableb b then
    match mul (Int a) (Int b) with
    | Int p => Leibniz.eqb (Binary64.of_Z p) (Binary64.of_Z a * Binary64.of_Z b)
    | _ => false
    end
  else true.

(** The model of [sum_to_n_b] returns what the binary64 one returns. *)
Definition sum_to_n_b_agrees (n : Z) : bool :=
  match sum_to_n_b (Int n) with
  | Int r => Leibniz.eqb (Binary64.of_Z r) (Binary64.sum_to_n_b (Binary64.of_Z n))
  | _ => false
  end.

(** [start], [start + step], ... ([count] values). *)
Fixpoint sweep (count : nat) (start step : Z) : list Z :=
  match count with
  | O => nil
  | S count' => start :: sweep count' (start + step) step
  end.

(** ** src/problem5: errors and results *)

Local Open Scope string_scope.

(** One entry of [ZodError.errors]. *)
Record ZodIssue : Type := mkZodIssue {
  issue_code : string;
  issue_path : list string;
  issue_message : string
}.

(** A value of TypeScript type [unknown], as far as an error response
    carries one in its [details]. *)
Inductive unknown : Type :=
| Undefined
| Issues (errors : list ZodIssue)
| Opaque (repr : string).

(** The classes of src/utils/error.util.ts: [AppError] and its
    subclasses. *)
Inductive AppErrorClass : Type :=
| AppErrorBase
| ValidationErrorClass
| UnauthorizedErrorClass
| NotFoundErrorClass
| ConflictErrorClass.

(** An instance of [AppError], with the fields [errorHandler] reads. *)
Record AppError : Type := mkAppError {
  app_class : AppErrorClass;
  message : string;
  statusCode : Z;
  code : string;
  details : unknown
}.

(** The error classes of the jsonwebtoken library: [TokenExpiredError]
    and [NotBeforeError] extend [JsonWebTokenError]. *)
Inductive JwtErrorClass : Type :=
| JsonWebTokenErrorBase
| TokenExpiredErrorClass
| NotBeforeErrorClass.

(** What a [catch] clause or [next(err)] can receive. *)
Inductive JsError : Type :=
| ZodError (errors : list ZodIssue)
| AppErr (e : AppError)
| JwtErr (c : JwtErrorClass) (msg : string)
| OtherErr (msg : string).

(** Modelled from the spec: src/problem5/src/utils/error.util.ts is not
    among the sources.  [new UnauthorizedError(message)] builds an
    [AppError] of that subclass; status and code are the ones the README
    lists for it and the integration tests expect (401, 'UNAUTHORIZED'). *)
Definition UnauthorizedError (msg : string) : JsError :=
  AppErr {| app_class := UnauthorizedErrorClass; message := msg;
            statusCode := 401; code := "UNAUTHORIZED"; details := Undefined |}.

(** Modelled from the spec: [new NotFoundError(message)], absent for the
    same reason (404, 'NOT_FOUND'). *)
Definition NotFoundError (msg : string) : JsError :=
  AppErr {| app_class := NotFoundErrorClass; message := msg;
            statusCode := 404; code := "NOT_FOUND"; details := Undefined |}.



Definition instanceof_TokenExpiredError (err : JsError) : bool :=
  match err with JwtErr TokenExpiredErrorClass _ => true | _ => false end.

Definition instanceof_JsonWebTokenError (err : JsError) : bool :=
  match err with JwtErr _ _ => true | _ => false end.

Definition instanceof_UnauthorizedError (err : JsError) : bool :=
  match err with
  | AppErr e =>
      match app_class e with UnauthorizedErrorClass => true | _ => false end
  | _ => false
  end.

Definition instanceof_NotFoundError (err : JsError) : bool :=
  match err with
  | AppErr e =>
      match app_class e with NotFoundErrorClass => true | _ => false end
  | _ => false
  end.

(** The two ways a call ends. *)
Inductive outcome (A : Type) : Type :=
| Returns (a : A)
| Throws (err : JsError).
Arguments Returns {A} a.
Arguments Throws {A} err.

(** ** src/problem5/src/utils/jwt.util.ts *)

Record JwtPayload : Type := mkJwtPayload {
  userId : string;
  email : string
}.

Section Jwt.

(** [jwt.verify(token, secret)] of the jsonwebtoken library and
    [env.JWT_SECRET]. *)
Variable jwt_verify : string -> string -> outcome JwtPayload.
Variable JWT_SECRET : string.

Definition verifyToken (token : string) : outcome JwtPayload :=
  match jwt_verify token JWT_SECRET with
  | Returns decoded => Returns decoded
  | Throws error =>
      if instanceof_TokenExpiredError error
      then Throws (UnauthorizedError "Token has expired")
      else if instanceof_JsonWebTokenError error
      then Throws (UnauthorizedError "Invalid token")
      else Throws (UnauthorizedError "Token verification failed")
  end.

End Jwt.

(** ** The state the request handlers work on *)

(** A row of the [User] table (prisma/schema.prisma, as the README
    gives it). *)
Record User : Type := mkUser {
  user_id : string;
  user_firstName : string;
  user_lastName : string;
  user_age : Z;
  user_createdAt : Z;
  user_updatedAt : Z
}.

(** The queries sent to the database, in order. *)
Inductive Query : Type :=
| FindUnique (id : string)
| Update (id : string)
| Delete (id : string).

Definition is_write (q : Query) : bool :=
  match q with FindUnique _ => false | _ => true end.

Inductive LogLevel : Type := LDebug | LInfo | LWarn | LError.

(** A line of the pino logger: its level and its [msg] field. *)
Record LogEntry : Type := mkLogEntry {
  level : LogLevel;
  log_msg : string
}.

Record World : Type := mkWorld {
  users : gmap string User;
  queries : list Query;
  logs : list LogEntry;
  now : Z
}.

(** An [async] function: it reads and writes the world and resolves
    ([Returns]) or rejects ([Throws]). *)
Definition Async (A : Type) : Type := World -> outcome A * World.

Definition resolve {A : Type} (a : A) : Async A := fun w => (Returns a, w).

Definition throw {A : Type} (err : JsError) : Async A := fun w => (Throws err, w).

(** [const x = await m; k x] *)
Definition await {A B : Type} (m : Async A) (k : A -> Async B) : Async B :=
  fun w =>
    match m w with
    | (Returns a, w') => k a w'
    | (Throws err, w') => (Throws err, w')
    end.

Notation "x <- m ;; k" := (await m (fun x => k))
  (at level 100, m at next level, right associativity).
Notation "m ;;; k" := (await m (fun _ => k))
  (at level 100, right associativity).

Definition logger (lvl : LogLevel) (msg : string) : Async unit :=
  fun w =>
    (Returns tt,
     {| users := users w; queries := queries w;
        logs := logs w ++ [mkLogEntry lvl msg]; now := now w |}).

Definition sent (q : Query) (w : World) : World :=
  {| users := users w; queries := queries w ++ [q]; logs := logs w; now := now w |}.

Definition store (m : gmap string User) (w : World) : World :=
  {| users := m; queries := queries w; logs := logs w; now := now w |}.

(** *** The Prisma client on the [User] table

    src/config/database.ts (the client singleton) and the client itself
    are outside the sources: an in-memory table keyed by [id]. *)

(** [prisma.user.findUnique({ where: { id } })]: the row or [null]. *)
Definition prisma_user_findUnique (id : string) : Async (option User) :=
  fun w => (Returns (users w !! id), sent (FindUnique id) w).

(** [prisma.user.update({ where: { id }, data })]: rejects when no row
    has that [id]. *)
Definition prisma_user_update (id : string) (data : User -> User) : Async User :=
  fun w =>
    match users w !! id with
    | Some u =>
        let u' := data u in
        let u'' := mkUser (user_id u') (user_firstName u') (user_lastName u')
                     (user_age u') (user_createdAt u') (now w) in
        (Returns u'', store (<[id := u'']> (users w)) (sent (Update id) w))
    | None => (Throws (OtherErr "Record to update not found."), sent (Update id) w)
    end.

(** [prisma.user.delete({ where: { id } })]: rejects when no row has
    that [id]. *)
Definition prisma_user_delete (id : string) : Async User :=
  fun w =>
    match users w !! id with
    | Some u => (Returns u, store (delete id (users w)) (sent (Delete id) w))
    | None => (Throws (OtherErr "Record to delete does not exist."), sent (Delete id) w)
    end.

(** ** src/problem5/src/services/user.service.ts *)

Record UpdateUserDto : Type := mkUpdateUserDto {
  dto_firstName : string;
  dto_lastName : string;
  dto_age : Z
}.

Record PatchUserDto : Type := mkPatchUserDto {
  patch_firstName : option string;
  patch_lastName : option string;
  patch_age : option Z
}.

Module userService.

Definition getById (id : string) : Async User :=
  user <- prisma_user_findUnique id ;;
  match user with
  | None => throw (NotFoundError "User not found")
  | Some u => resolve u
  end.

Definition update (id : string) (data : UpdateUserDto) : Async User :=
  logger LInfo "Updating user" ;;;
  getById id ;;;
  user <- prisma_user_update id
            (fun u => mkUser (user_id u) (dto_firstName data) (dto_lastName data)
                        (dto_age data) (user_createdAt u) (user_updatedAt u)) ;;
  logger LInfo "User updated" ;;;
  resolve user.

Definition patch (id : string) (data : PatchUserDto) : Async User :=
  logger LInfo "Patching user" ;;;
  getById id ;;;
  user <- prisma_user_update id
            (fun u => mkUser (user_id u)
                        (default (user_firstName u) (patch_firstName data))
                        (default (user_lastName u) (patch_lastName data))
                        (default (user_age u) (patch_age data))
                        (user_createdAt u) (user_updatedAt u)) ;;
  logger LInfo "User patched" ;;;
  resolve user.

Definition delete (id : string) : Async unit :=
  logger LInfo "Deleting user" ;;;
  getById id ;;;
  prisma_user_delete id ;;;
  logger LInfo "User deleted" ;;;
  resolve tt.

End userService.

(** ** Requests, responses and the Express middleware chain *)

(** [ErrorResponse] of src/types/index.ts: the object under [error]. *)
Record ErrorResponse : Type := mkErrorResponse {
  error_message : string;
  error_code : string;
  error_details : unknown
}.

Inductive ResponseBody : Type :=
| ErrorBody (error : ErrorResponse)
| UserBody (user : User)
| NoBody.

(** [res.status(s).json(b)] *)
Record Response : Type := mkResponse {
  status : Z;
  response_body : ResponseBody
}.

(** What a schema validates: [{ body, query, params }]. *)
Record RequestData (B : Type) : Type := mkRequestData {
  body : B;
  query : list (string * string);
  params_id : string
}.
Arguments mkRequestData {B} body query params_id.
Arguments body {B} r.
Arguments query {B} r.
Arguments params_id {B} r.

(** An [AuthenticatedRequest] with a body of type [B]. *)
Record Request (B : Type) : Type := mkRequest {
  req_path : string;
  req_method : string;
  req_authorization : option string;
  req_data : RequestData B;
  req_user : option JwtPayload
}.
Arguments mkRequest {B} req_path req_method req_authorization req_data req_user.
Arguments req_path {B} r.
Arguments req_method {B} r.
Arguments req_authorization {B} r.
Arguments req_data {B} r.
Arguments req_user {B} r.

(** How a middleware or a controller leaves: [next()], [next(err)], or
    a response sent. *)
Inductive HandlerResult (B : Type) : Type :=
| Next (req : Request B)
| NextErr (err : JsError)
| Responded (res : Response).
Arguments Next {B} req.
Arguments NextErr {B} err.
Arguments Responded {B} res.

Definition Handler (B : Type) : Type := Request B -> World -> HandlerResult B * World.

(** ** src/problem5/src/middleware/error.middleware.ts *)

Definition errorHandler {B : Type} (err : JsError) (req : Request B)
  : World -> Response * World :=
  fun w =>
    match err with
    | ZodError errors =>
        (* err instanceof ZodError *)
        let '(_, w') := logger LWarn "Validation error" w in
        (mkResponse 400
           (ErrorBody (mkErrorResponse "Validation failed" "VALIDATION_ERROR"
                         (Issues errors))), w')
    | AppErr e =>
        (* err instanceof AppError *)
        let logLevel := if (500 <=? statusCode e)%Z then LError else LWarn in
        let '(_, w') := logger logLevel (message e) w in
        (mkResponse (statusCode e)
           (ErrorBody (mkErrorResponse (message e) (code e) (details e))), w')
    | _ =>
        let '(_, w') := logger LError "Unhandled error" w in
        (mkResponse 500
           (ErrorBody (mkErrorResponse "Internal server error" "INTERNAL_ERROR"
                         Undefined)), w')
    end.

(** ** src/problem5/src/middleware/validation.middleware.ts *)

(** [schema.parseAsync] of the zod library: the transformed values, or a
    rejection (a [ZodError] when the data do not match the schema). *)
Definition ZodSchema (B : Type) : Type := RequestData B -> outcome (RequestData B).

Definition validate {B : Type} (schema : ZodSchema B) : Handler B :=
  fun req w =>
    match schema (req_data req) with
    | Returns validated =>
        (Next (mkRequest (req_path req) (req_method req) (req_authorization req)
                 validated (req_user req)), w)
    | Throws error => (NextErr error, w)
    end.

(** ** src/middleware/auth.middleware.ts *)

Section Auth.

Variable jwt_verify : string -> string -> outcome JwtPayload.
Variable JWT_SECRET : string.

Definition authMiddleware {B : Type} : Handler B :=
  fun req w =>
    match req_authorization req with
    | Some authHeader =>
        if String.prefix "Bearer " authHeader then
          let token := String.substring 7 (String.length authHeader - 7) authHeader in
          match verifyToken jwt_verify JWT_SECRET token with
          | Returns payload =>
              (Next (mkRequest (req_path req) (req_method req)
                       (req_authorization req) (req_data req) (Some payload)), w)
          | Throws error => (NextErr error, w)
          end
        else (NextErr (UnauthorizedError "No token provided"), w)
    | None => (NextErr (UnauthorizedError "No token provided"), w)
    end.

End Auth.

(** ** The user controller (update, patch, delete) *)

Module userController.

Definition update : Handler UpdateUserDto :=
  fun req w =>
    match userService.update (params_id (req_data req)) (body (req_data req)) w with
    | (Returns user, w') => (Responded (mkResponse 200 (UserBody user)), w')
    | (Throws error, w') => (NextErr error, w')
    end.

Definition patch : Handler PatchUserDto :=
  fun req w =>
    match userService.patch (params_id (req_data req)) (body (req_data req)) w with
    | (Returns user, w') => (Responded (mkResponse 200 (UserBody user)), w')
    | (Throws error, w') => (NextErr error, w')
    end.

Definition delete : Handler unit :=
  fun req w =>
    match userService.delete (params_id (req_data req)) w with
    | (Returns _, w') => (Responded (mkResponse 204 NoBody), w')
    | (Throws error, w') => (NextErr error, w')
    end.

Definition getById {B : Type} : Handler B :=
  fun req w =>
    match userService.getById (params_id (req_data req)) w with
    | (Returns user, w') => (Responded (mkResponse 200 (UserBody user)), w')
    | (Throws error, w') => (NextErr error, w')
    end.

End userController.

(** ** Express: a route's stack of handlers

    Each handler runs in turn; [next()] passes the request on; [next(err)]
    skips what is left of the stack and reaches the error handler
    registered last in src/app.ts; a request no handler answers reaches
    the 404 handler of src/app.ts. *)
Fixpoint dispatch {B : Type} (stack : list (Handler B)) (req : Request B)
  (w : World) : Response * World :=
  match stack with
  | [] =>
      (mkResponse 404
         (ErrorBody (mkErrorResponse "Route not found" "NOT_FOUND" Undefined)), w)
  | handler :: rest =>
      match handler req w with
      | (Next req', w') => dispatch rest req' w'
      | (NextErr err, w') => errorHandler err req w'
      | (Responded res, w') => (res, w')
      end
  end.



(** The world after one more log line. *)
Definition logged (lvl : LogLevel) (msg : string) (w : World) : World :=
  snd (logger lvl msg w).

(** How a service call on an id without a row ends: it throws
    [NotFoundError('User not found')], the user table is as before, and
    the one query sent is the lookup. *)
Definition ends_not_found {A : Type} (id : string) (w : World)
  (r : outcome A * World) : Prop :=
  fst r = Throws (NotFoundError "User not found") /\
  users (snd r) = users w /\
  queries (snd r) = (queries w ++ [FindUnique id])%list.

(** ** Further code of problem5 *)

(** The row [prisma.user.update] stores and returns: the new field
    values, stamped with the time of the write. *)
Definition stamped (u : User) (t : Z) : User :=
  mkUser (user_id u) (user_firstName u) (user_lastName u) (user_age u)
    (user_createdAt u) t.

(** The field values [userService.update] writes. *)
Definition update_fields (data : UpdateUserDto) (u : User) : User :=
  mkUser (user_id u) (dto_firstName data) (dto_lastName data) (dto_age data)
    (user_createdAt u) (user_updatedAt u).

(** The field values [userService.patch] writes: a field that is not
    given keeps its value. *)
Definition patch_fields (data : PatchUserDto) (u : User) : User :=
  mkUser (user_id u)
    (default (user_firstName u) (patch_firstName data))
    (default (user_lastName u) (patch_lastName data))
    (default (user_age u) (patch_age data))
    (user_createdAt u) (user_updatedAt u).

(** Every row is stored under its own [id]. *)
Definition well_keyed (m : gmap string User) : Prop :=
  forall k u, m !! k = Some u -> user_id u = k.

(** The answer of the error handler to [NotFoundError('User not found')]. *)
Definition not_found_response : Response :=
  mkResponse 404 (ErrorBody (mkErrorResponse "User not found" "NOT_FOUND" Undefined)).


(** Modelled from the spec: [new ConflictError(message)] of the absent
    src/problem5/src/utils/error.util.ts, with the status and code the
    README lists for it (409, 'CONFLICT'). *)
Definition ConflictError (msg : string) : JsError :=
  AppErr {| app_class := ConflictErrorClass; message := msg;
            statusCode := 409; code := "CONFLICT"; details := Undefined |}.

(** *** src/problem5/src/utils/jwt.util.ts: [generateToken] *)

Section Sign.

(** [jwt.sign(payload, secret, { expiresIn })] of the jsonwebtoken
    library, [env.JWT_SECRET] and [env.JWT_EXPIRATION]. *)
Variable jwt_sign : JwtPayload -> string -> string -> string.
Variable JWT_SECRET : string.
Variable JWT_EXPIRATION : string.

Definition generateToken (payload : JwtPayload) : string :=
  jwt_sign payload JWT_SECRET JWT_EXPIRATION.

End Sign.

(** *** src/problem5/src/services/auth.service.ts *)

Record RegisterDto : Type := mkRegisterDto {
  register_email : string;
  register_password : string
}.

Record LoginDto : Type := mkLoginDto {
  login_email : string;
  login_password : string
}.

Record AuthResponse : Type := mkAuthResponse {
  token : string;
  auth_user_id : string;
  auth_user_email : string
}.

(** A row of the [ApiUser] table (prisma/schema.prisma, as the README
    gives it); [email] is unique. *)
Record ApiUser : Type := mkApiUser {
  apiUser_id : string;
  apiUser_email : string;
  apiUser_password : string;
  apiUser_createdAt : Z;
  apiUser_updatedAt : Z
}.

(** The state the authentication service works on: the [ApiUser] table,
    keyed by the unique [email] the service looks rows up by, the log
    and the clock. *)
Record AuthWorld : Type := mkAuthWorld {
  apiUsers : gmap string ApiUser;
  auth_logs : list LogEntry;
  auth_now : Z
}.

Definition auth_logger (lvl : LogLevel) (msg : string) (w : AuthWorld) : AuthWorld :=
  {| apiUsers := apiUsers w;
     auth_logs := auth_logs w ++ [mkLogEntry lvl msg];
     auth_now := auth_now w |}.

Definition SALT_ROUNDS : Z := 10.

Module authService.
Section Service.

(** [bcrypt.hash(password, rounds)] with the salt it draws made an
    argument, and [bcrypt.compare(password, hash)], of the bcrypt
    library; [jwt.sign] and the environment as in [generateToken]. *)
Variable bcrypt_hash : string -> string -> Z -> string.
Variable bcrypt_compare : string -> string -> bool.
Variable jwt_sign : JwtPayload -> string -> string -> string.
Variable JWT_SECRET : string.
Variable JWT_EXPIRATION : string.

(** [register(data)]; [uuid] is the id the database draws for the new
    row ([@default(uuid())]) and [salt] the salt bcrypt draws. *)
Definition register (uuid salt : string) (data : RegisterDto)
  : AuthWorld -> outcome AuthResponse * AuthWorld :=
  fun w =>
    let w1 := auth_logger LInfo "User registration attempt" w in
    match apiUsers w1 !! register_email data with
    | Some existingUser =>
        (Throws (ConflictError "User with this email already exists"),
         auth_logger LWarn "Registration failed - email already exists" w1)
    | None =>
        let hashedPassword := bcrypt_hash salt (register_password data) SALT_ROUNDS in
        let user := mkApiUser uuid (register_email data) hashedPassword
                      (auth_now w1) (auth_now w1) in
        let w2 := {| apiUsers := <[register_email data := user]> (apiUsers w1);
                     auth_logs := auth_logs w1; auth_now := auth_now w1 |} in
        let token := generateToken jwt_sign JWT_SECRET JWT_EXPIRATION
                       {| userId := apiUser_id user; email := apiUser_email user |} in
        (Returns (mkAuthResponse token (apiUser_id user) (apiUser_email user)),
         auth_logger LInfo "User registered successfully" w2)
    end.

Definition login (data : LoginDto)
  : AuthWorld -> outcome AuthResponse * AuthWorld :=
  fun w =>
    let w1 := auth_logger LInfo "User login attempt" w in
    match apiUsers w1 !! login_email data with
    | None =>
        (Throws (UnauthorizedError "Invalid credentials"),
         auth_logger LWarn "Login failed - user not found" w1)
    | Some user =>
        if bcrypt_compare (login_password data) (apiUser_password user) then
          let token := generateToken jwt_sign JWT_SECRET JWT_EXPIRATION
                         {| userId := apiUser_id user; email := apiUser_email user |} in
          (Returns (mkAuthResponse token (apiUser_id user) (apiUser_email user)),
           auth_logger LInfo "User logged in successfully" w1)
        else
          (Throws (UnauthorizedError "Invalid credentials"),
           auth_logger LWarn "Login failed - invalid password" w1)
    end.

End Service.
End authService.

(** *** The [limit] field of [listUsersSchema] (validators/user.validator.ts) *)

(** [\d] *)
Definition is_digit (c : Ascii.ascii) : bool :=
  (48 <=? Z.of_nat (Ascii.nat_of_ascii c))%Z && (Z.of_nat (Ascii.nat_of_ascii c) <=? 57)%Z.

Fixpoint all_digits (s : string) : bool :=
  match s with
  | EmptyString => true
  | String c s' => is_digit c && all_digits s'
  end.

(** [/^\d+$/.test(s)] *)
Definition matches_digits (s : string) : bool :=
  match s with
  | EmptyString => false
  | String _ _ => all_digits s
  end.

(** The integer a string of decimal digits denotes, after [acc]. *)
Fixpoint digits_value (acc : Z) (s : string) : Z :=
  match s with
  | EmptyString => acc
  | String c s' => digits_value (10 * acc + (Z.of_nat (Ascii.nat_of_ascii c) - 48))%Z s'
  end.

(** [parseInt(s, 10)] on a string of decimal digits: the number nearest
    to the integer it denotes (an engine may drop digits after the 20th
    before rounding). *)
Definition parseInt10 (s : string) : number := fl (digits_value 0 s).

(** [Math.min(x, y)] *)
Definition Math_min (x y : number) : number :=
  match x, y with
  | NaN, _ | _, NaN => NaN
  | _, _ => if le x y then x else y
  end.

(** [z.string().regex(/^\d+$/, 'limit must be a number').optional()
      .transform(val => { if (!val) return 50;
                          const num = parseInt(val, 10);
                          return Math.min(num, 100); })]
    on a query parameter that is absent or a string. *)
Definition limit_field (val : option string) : outcome number :=
  match val with
  | None => Returns (Int 50)
  | Some s =>
      if matches_digits s then
        match s with
        | EmptyString => Returns (Int 50)
        | String _ _ => Returns (Math_min (parseInt10 s) (Int 100))
        end
      else Throws (ZodError [mkZodIssue "invalid_string" ["query"; "limit"]
                               "limit must be a number"])
  end.

(** A table with one row, for the examples. *)
Definition john : User := mkUser "u1" "John" "Doe" 30 1 1.

Definition one_user_world : World := mkWorld {[ "u1" := john ]} [] [] 5.

(** A request for the examples: no Authorization header, the given
    body and [:id]. *)
Definition example_request {B : Type} (b : B) (id : string) : Request B :=
  mkRequest "/api/users" "GET" None (mkRequestData b [] id) None.


(** An empty [ApiUser] table, and stand-ins for the libraries in the
    examples: a hash that is the password itself, a signature that is
    the e-mail address of the payload. *)
Definition no_accounts : AuthWorld := mkAuthWorld ∅ [] 5.

Definition example_hash (salt password : string) (rounds : Z) : string := password.

Definition example_compare (password hash : string) : bool := String.eqb password hash.

Definition example_sign (payload : JwtPayload) (secret expiresIn : string) : string :=
  email payload.

Definition example_verify (token secret : string) : outcome JwtPayload :=
  Returns (mkJwtPayload "a1" token).

Definition alice : RegisterDto := mkRegisterDto "alice@example.com" "Password123".

(** A table with the one account of [alice]. *)
Definition one_account : AuthWorld :=
  mkAuthWorld {[ "alice@example.com" := mkApiUser "a1" "alice@example.com" "Password123" 5 5 ]}
    [] 5.

(** The request as [authMiddleware] passes it on: [req.user = payload]. *)
Definition authenticated {B : Type} (req : Request B) (payload : JwtPayload) : Request B :=
  mkRequest (req_path req) (req_method req) (req_authorization req)
    (req_data req) (Some payload).

(** The request as [validate] passes it on: body, query and params
    replaced by the validated values. *)
Definition validated_request {B : Type} (req : Request B) (data : RequestData B) : Request B :=
  mkRequest (req_path req) (req_method req) (req_authorization req)
    data (req_user req).

Local Close Scope string_scope.

(* ===================================================================== *)
(** * Part II. Properties *)
(* ===================================================================== *)

(** ** Rounding *)

Lemma pow2_53 : 2 ^ 53 = 9007199254740992.
Proof. reflexivity. Qed.

Lemma pow2_53_lt_1024 : 2 ^ 53 < 2 ^ 1024.
Proof. apply Z.pow_lt_mono_r; lia. Qed.

Lemma round53_small z : Z.abs z < 2 ^ 53 -> round53 z = z.
Proof.
  intros Hz. unfold round53.
  destruct (Z.ltb_spec (Z.abs z) (2 ^ 53)); [reflexivity | lia].
Qed.

(** Below [2^1024] in magnitude a rounded value is not an infinity. *)
Lemma fl_finite z :
  - 2 ^ 1024 < round53 z < 2 ^ 1024 -> fl z = Int (round53 z).
Proof.
  intros [Hlo Hhi]. unfold fl.
  destruct (Z.leb_spec (2 ^ 1024) (round53 z)); [lia |].
  destruct (Z.leb_spec (round53 z) (- 2 ^ 1024)); [lia | reflexivity].
Qed.

(** Integers of magnitude below [2^53] are numbers. *)
Lemma fl_small z : Z.abs z < 2 ^ 53 -> fl z = Int z.
Proof.
  intros Hz. pose proof pow2_53_lt_1024 as Hp.
  rewrite fl_finite; rewrite (round53_small z Hz); [reflexivity | lia].
Qed.

(** Between [2^53] and [2^54] the numbers are the even integers. *)
Lemma round53_even_54 z :
  2 ^ 53 <= z < 2 ^ 54 -> Z.even z = true -> round53 z = z.
Proof.
  intros [Hlo Hhi] Hev. unfold round53.
  rewrite (Z.abs_eq z) by lia.
  destruct (Z.ltb_spec z (2 ^ 53)); [lia |].
  assert (Hlog : Z.log2 z = 53) by (apply Z.log2_unique; [lia | split; assumption]).
  rewrite Hlog. change (53 - 52) with 1. change (2 ^ 1) with 2.
  change (2 ^ (1 - 1)) with 1.
  assert (Hr : z mod 2 = 0).
  { rewrite Zmod_even, Hev. reflexivity. }
  rewrite Hr. unfold round_half_even.
  change (0 <? 1) with true. cbv iota.
  rewrite Z.sgn_pos by lia.
  pose proof (Z.div_mod z 2 ltac:(lia)). lia.
Qed.

Lemma fl_even_54 z :
  0 <= z < 2 ^ 54 -> Z.even z = true -> fl z = Int z.
Proof.
  intros [Hlo Hhi] Hev.
  destruct (Z.lt_ge_cases z (2 ^ 53)) as [Hs | Hb].
  - apply fl_small. lia.
  - assert (H54 : 2 ^ 54 < 2 ^ 1024) by (apply Z.pow_lt_mono_r; lia).
    rewrite fl_finite; rewrite round53_even_54 by (try split; assumption || lia);
      [reflexivity | lia].
Qed.

(** A rounded value of magnitude [2^53] or more is even: the spacing of
    the numbers there is at least 2. *)
Lemma round53_even_large z : 2 ^ 53 <= Z.abs z -> Z.even (round53 z) = true.
Proof.
  intros Hz. unfold round53.
  destruct (Z.ltb_spec (Z.abs z) (2 ^ 53)); [lia |].
  assert (Hlog : 53 <= Z.log2 (Z.abs z)).
  { apply Z.log2_le_pow2; lia. }
  set (e := Z.log2 (Z.abs z) - 52).
  assert (He : 2 ^ e = 2 * 2 ^ (e - 1)).
  { replace e with (Z.succ (e - 1)) at 1 by lia. apply Z.pow_succ_r. lia. }
  rewrite He at 3.
  rewrite !Z.even_mul. simpl (Z.even 2).
  rewrite orb_true_l, orb_true_r, orb_true_r. reflexivity.
Qed.

Lemma round53_even z : Z.even z = true -> Z.even (round53 z) = true.
Proof.
  intros Hev. destruct (Z.lt_ge_cases (Z.abs z) (2 ^ 53)) as [Hs | Hb].
  - rewrite round53_small; assumption.
  - apply round53_even_large. assumption.
Qed.

Lemma fl_Int_inv z r : fl z = Int r -> r = round53 z.
Proof.
  unfold fl.
  destruct (2 ^ 1024 <=? round53 z); [discriminate |].
  destruct (round53 z <=? - 2 ^ 1024); [discriminate |].
  intros [= <-]. reflexivity.
Qed.

Lemma fl_not_NaN z : fl z <> NaN.
Proof.
  unfold fl. destruct (2 ^ 1024 <=? round53 z); [discriminate |].
  destruct (round53 z <=? - 2 ^ 1024); discriminate.
Qed.

Lemma even_mul_succ n : Z.even (n * (n + 1)) = true.
Proof.
  rewrite Z.even_mul, Z.add_1_r, Z.even_succ, <- Z.negb_even.
  destruct (Z.even n); reflexivity.
Qed.

(** The product that [sum_to_n_b] halves is even, so [half] is exact
    and integer-valued where the program applies it. *)
Lemma mul_succ_even n z :
  0 < n -> mul (Int n) (add (Int n) (Int 1)) = Int z -> Z.even z = true.
Proof.
  intros Hn. cbn [add].
  destruct (fl (n + 1)) as [m | | |] eqn:Hm; cbn [mul].
  - intros Hz. apply fl_Int_inv in Hz. apply fl_Int_inv in Hm. subst z.
    apply round53_even.
    destruct (Z.lt_ge_cases (n + 1) (2 ^ 53)) as [Hs | Hb].
    + rewrite round53_small in Hm by lia. subst m. apply even_mul_succ.
    + rewrite Z.even_mul. subst m.
      rewrite (round53_even_large (n + 1)) by lia. apply orb_true_r.
  - destruct (n =? 0); [discriminate |]. destruct (0 <? n); discriminate.
  - destruct (n =? 0); [discriminate |]. destruct (0 <? n); discriminate.
  - discriminate.
Qed.

(** ** Triangular numbers *)

Lemma triangular_double n : 2 * triangular n = n * (n + 1).
Proof.
  unfold triangular.
  destruct (Z.Even_or_Odd n) as [[k ->] | [k ->]].
  - replace (2 * k * (2 * k + 1)) with (k * (2 * k + 1) * 2) by lia.
    rewrite Z.div_mul by lia. lia.
  - replace ((2 * k + 1) * (2 * k + 1 + 1)) with ((2 * k + 1) * (k + 1) * 2) by lia.
    rewrite Z.div_mul by lia. lia.
Qed.

Lemma triangular_0 : triangular 0 = 0.
Proof. reflexivity. Qed.

Lemma triangular_step n : triangular n = triangular (n - 1) + n.
Proof.
  pose proof (triangular_double n). pose proof (triangular_double (n - 1)). lia.
Qed.

Lemma triangular_mono m n : 0 <= m <= n -> triangular m <= triangular n.
Proof.
  intros H.
  pose proof (triangular_double n). pose proof (triangular_double m). nia.
Qed.

Lemma triangular_ge n : 0 <= n -> n <= triangular n.
Proof. intros H. pose proof (triangular_double n). nia. Qed.

(** The inputs whose triangular number is a safe integer. *)
Lemma triangular_safe_range n :
  0 <= n -> (triangular n <= MAX_SAFE_INTEGER <-> n <= 134217727).
Proof.
  intros Hn. pose proof (triangular_double n) as Hd. unfold MAX_SAFE_INTEGER.
  split; intros H; nia.
Qed.

(** ** The arithmetic of the three functions on safe integers *)

Lemma add_exact a b : Z.abs (a + b) < 2 ^ 53 -> add (Int a) (Int b) = Int (a + b).
Proof. intros H. cbn [add]. apply fl_small. assumption. Qed.

Lemma sub_exact a b : Z.abs (a - b) < 2 ^ 53 -> sub (Int a) (Int b) = Int (a - b).
Proof.
  intros H. unfold sub. cbn [neg add].
  replace (a + - b) with (a - b) by lia. apply fl_small. assumption.
Qed.

Lemma sum_to_n_a_loop_S fuel n i sum :
  sum_to_n_a_loop (S fuel) n i sum =
  if le i n then sum_to_n_a_loop fuel n (add i (Int 1)) (add sum i) else Some sum.
Proof. reflexivity. Qed.

Lemma sum_to_n_c_S fuel n :
  sum_to_n_c (S fuel) n =
  if le n (Int 0) then Some (Int 0)
  else match sum_to_n_c fuel (sub n (Int 1)) with
       | Some r => Some (add n r)
       | None => None
       end.
Proof. reflexivity. Qed.

(** More fuel does not change a result. *)
Lemma sum_to_n_a_loop_fuel fuel : forall fuel' n i sum r,
  sum_to_n_a_loop fuel n i sum = Some r -> (fuel <= fuel')%nat ->
  sum_to_n_a_loop fuel' n i sum = Some r.
Proof.
  induction fuel as [| fuel IH]; intros fuel' n i sum r Hrun Hle.
  - discriminate.
  - destruct fuel' as [| fuel']; [lia |].
    cbn [sum_to_n_a_loop] in *.
    destruct (le i n); [| assumption].
    apply (IH fuel'); [assumption | lia].
Qed.

Lemma sum_to_n_c_fuel fuel : forall fuel' n r,
  sum_to_n_c fuel n = Some r -> (fuel <= fuel')%nat ->
  sum_to_n_c fuel' n = Some r.
Proof.
  induction fuel as [| fuel IH]; intros fuel' n r Hrun Hle.
  - discriminate.
  - destruct fuel' as [| fuel']; [lia |].
    cbn [sum_to_n_c] in *.
    destruct (le n (Int 0)); [assumption |].
    destruct (sum_to_n_c fuel (sub n (Int 1))) as [r' |] eqn:Hrec; [| discriminate].
    rewrite (IH fuel' _ r' Hrec) by lia. assumption.
Qed.

Lemma sum_to_n_a_deterministic fuel fuel' n r r' :
  sum_to_n_a fuel n = Some r -> sum_to_n_a fuel' n = Some r' -> r = r'.
Proof.
  unfold sum_to_n_a. intros Hr Hr'.
  destruct (Nat.le_ge_cases fuel fuel') as [Hle | Hle].
  - rewrite (sum_to_n_a_loop_fuel _ _ _ _ _ _ Hr Hle) in Hr'. congruence.
  - rewrite (sum_to_n_a_loop_fuel _ _ _ _ _ _ Hr' Hle) in Hr. congruence.
Qed.

Lemma sum_to_n_c_deterministic fuel fuel' n r r' :
  sum_to_n_c fuel n = Some r -> sum_to_n_c fuel' n = Some r' -> r = r'.
Proof.
  intros Hr Hr'.
  destruct (Nat.le_ge_cases fuel fuel') as [Hle | Hle].
  - rewrite (sum_to_n_c_fuel _ _ _ _ Hr Hle) in Hr'. congruence.
  - rewrite (sum_to_n_c_fuel _ _ _ _ Hr' Hle) in Hr. congruence.
Qed.

(** [k] turns of the loop from [i], while the partial sums stay safe:
    the loop invariant [sum = triangular (i - 1)]. *)
Lemma sum_to_n_a_loop_run_nat (k : nat) : forall fuel n i,
  1 <= i -> i + Z.of_nat k - 1 <= n ->
  triangular (i + Z.of_nat k - 1) <= MAX_SAFE_INTEGER ->
  sum_to_n_a_loop (k + fuel) (Int n) (Int i) (Int (triangular (i - 1))) =
  sum_to_n_a_loop fuel (Int n) (Int (i + Z.of_nat k))
    (Int (triangular (i + Z.of_nat k - 1))).
Proof.
  induction k as [| k IH]; intros fuel n i Hi Hn Hsafe.
  - cbn [Nat.add]. rewrite Nat2Z.inj_0, Z.add_0_r. reflexivity.
  - rewrite Nat2Z.inj_succ in *.
    assert (Hti : triangular i <= MAX_SAFE_INTEGER).
    { etransitivity; [apply (triangular_mono i (i + Z.succ (Z.of_nat k) - 1)); lia
                     | exact Hsafe]. }
    assert (Hi' : i <= 134217727) by (apply triangular_safe_range; lia).
    pose proof (triangular_ge i ltac:(lia)) as Hge.
    cbn [Nat.add sum_to_n_a_loop le].
    destruct (Z.leb_spec i n); [| lia].
    rewrite add_exact by (rewrite pow2_53; lia).
    rewrite add_exact
      by (rewrite <- triangular_step; unfold MAX_SAFE_INTEGER in Hti;
          rewrite pow2_53; lia).
    rewrite <- triangular_step.
    replace i with (i + 1 - 1) at 2 by lia.
    rewrite (IH fuel n (i + 1)) by (try lia; replace (i + 1 + Z.of_nat k - 1)
      with (i + Z.succ (Z.of_nat k) - 1) by lia; assumption).
    replace (i + 1 + Z.of_nat k) with (i + Z.succ (Z.of_nat k)) by lia.
    reflexivity.
Qed.

Lemma sum_to_n_a_loop_run k fuel n i :
  0 <= k -> 1 <= i -> i + k - 1 <= n ->
  triangular (i + k - 1) <= MAX_SAFE_INTEGER ->
  sum_to_n_a_loop (Z.to_nat k + fuel) (Int n) (Int i) (Int (triangular (i - 1))) =
  sum_to_n_a_loop fuel (Int n) (Int (i + k)) (Int (triangular (i + k - 1))).
Proof.
  intros Hk Hi Hn Hsafe.
  rewrite <- (Z2Nat.id k Hk) in Hn, Hsafe |- * at 2 3.
  apply sum_to_n_a_loop_run_nat; assumption.
Qed.

Lemma sum_to_n_a_nonpos n fuel :
  n <= 0 -> (0 < fuel)%nat -> sum_to_n_a fuel (Int n) = Some (Int 0).
Proof.
  intros Hn Hf. destruct fuel as [| fuel]; [lia |].
  unfold sum_to_n_a. cbn [sum_to_n_a_loop le].
  destruct (Z.leb_spec 1 n); [lia | reflexivity].
Qed.

Lemma sum_to_n_b_nonpos n : n <= 0 -> sum_to_n_b (Int n) = Int 0.
Proof.
  intros Hn. unfold sum_to_n_b. cbn [le].
  destruct (Z.leb_spec n 0); [reflexivity | lia].
Qed.

Lemma sum_to_n_c_nonpos n fuel :
  n <= 0 -> (0 < fuel)%nat -> sum_to_n_c fuel (Int n) = Some (Int 0).
Proof.
  intros Hn Hf. destruct fuel as [| fuel]; [lia |].
  cbn [sum_to_n_c le].
  destruct (Z.leb_spec n 0); [reflexivity | lia].
Qed.

Lemma sum_to_n_a_safe n fuel :
  0 <= n -> triangular n <= MAX_SAFE_INTEGER -> (Z.to_nat n < fuel)%nat ->
  sum_to_n_a fuel (Int n) = Some (Int (triangular n)).
Proof.
  intros Hn Hsafe Hfuel.
  apply (sum_to_n_a_loop_fuel (Z.to_nat n + 1)); [| lia].
  unfold sum_to_n_a. change (Int 0) with (Int (triangular (1 - 1))).
  rewrite sum_to_n_a_loop_run;
    try (replace (1 + n - 1) with n by lia); try assumption; try lia.
  cbn [sum_to_n_a_loop le].
  destruct (Z.leb_spec (1 + n) n); [lia | reflexivity].
Qed.

Lemma sum_to_n_b_safe n :
  0 <= n -> triangular n <= MAX_SAFE_INTEGER ->
  sum_to_n_b (Int n) = Int (triangular n).
Proof.
  intros Hn Hsafe.
  destruct (Z.eq_dec n 0) as [-> | Hne]; [reflexivity |].
  assert (Hn' : n <= 134217727) by (apply triangular_safe_range; assumption).
  pose proof (triangular_double n) as Hd. unfold MAX_SAFE_INTEGER in Hsafe.
  unfold sum_to_n_b. cbn [le].
  destruct (Z.leb_spec n 0); [lia |].
  rewrite add_exact by (rewrite pow2_53; lia).
  cbn [mul]. rewrite fl_even_54.
  - reflexivity.
  - change (2 ^ 54) with 18014398509481984. nia.
  - apply even_mul_succ.
Qed.

Lemma sum_to_n_c_safe_nat (k : nat) : forall n,
  0 <= n <= Z.of_nat k -> triangular n <= MAX_SAFE_INTEGER ->
  sum_to_n_c (S k) (Int n) = Some (Int (triangular n)).
Proof.
  induction k as [| k IH]; intros n Hn Hsafe.
  - assert (n = 0) as -> by lia. reflexivity.
  - destruct (Z.eq_dec n 0) as [-> | Hne]; [reflexivity |].
    assert (Hn' : n <= 134217727) by (apply triangular_safe_range; lia).
    pose proof (triangular_step n) as Hstep.
    pose proof (triangular_mono (n - 1) n ltac:(lia)) as Hmono.
    pose proof (triangular_ge (n - 1) ltac:(lia)) as Hge.
    unfold MAX_SAFE_INTEGER in *.
    rewrite sum_to_n_c_S. cbn [le].
    destruct (Z.leb_spec n 0); [lia |].
    rewrite sub_exact by (rewrite pow2_53; lia).
    rewrite IH by lia.
    rewrite add_exact by (rewrite pow2_53; lia).
    f_equal. f_equal. lia.
Qed.

Lemma sum_to_n_c_safe n fuel :
  0 <= n -> triangular n <= MAX_SAFE_INTEGER -> (Z.to_nat n < fuel)%nat ->
  sum_to_n_c fuel (Int n) = Some (Int (triangular n)).
Proof.
  intros Hn Hsafe Hfuel.
  apply (sum_to_n_c_fuel (S (Z.to_nat n))); [| lia].
  apply sum_to_n_c_safe_nat; [lia | assumption].
Qed.

(** A call stack without room for the [n + 1] nested calls of
    [sum_to_n_c] overflows. *)
Lemma sum_to_n_c_overflow (stack : nat) : forall n,
  n <= 2 ^ 53 -> (stack <= Z.to_nat n)%nat -> sum_to_n_c stack (Int n) = None.
Proof.
  induction stack as [| stack IH]; intros n Hn Hstack; [reflexivity |].
  assert (Hpos : 0 < n) by lia.
  rewrite sum_to_n_c_S. cbn [le].
  destruct (Z.leb_spec n 0); [lia |].
  rewrite sub_exact by lia.
  rewrite IH by lia. reflexivity.
Qed.

(** C1 (as stated, refuted): at the non-negative integer
    [n = 134217729] the product [n * (n + 1)] exceeds [2^54], is rounded
    to a multiple of 4, and [sum_to_n_b] returns 9007199456067584, one
    less than the triangular number 9007199456067585, which is not a
    number at all: no function can return it. *)
Lemma sum_to_n_b_not_triangular :
  0 <= 134217729 /\ representable 134217729 /\
  sum_to_n_b (Int 134217729) = Int 9007199456067584 /\
  triangular 134217729 = 9007199456067585 /\
  sum_to_n_b (Int 134217729) <> Int (triangular 134217729) /\
  ~ representable (triangular 134217729).
Proof.
  split; [lia |]. split; [vm_compute; reflexivity |].
  split; [vm_compute; reflexivity |]. split; [vm_compute; reflexivity |].
  split; vm_compute; discriminate.
Qed.

(** C1 (amended): for every non-negative integer n whose triangular
    number n*(n+1)/2 is at most Number.MAX_SAFE_INTEGER (that is, for
    0 <= n <= 134217727), sum_to_n_a returns n*(n+1)/2 after n + 1 tests
    of its loop, sum_to_n_b returns n*(n+1)/2, and sum_to_n_c returns
    n*(n+1)/2 exactly when the call stack has room for its n + 1 nested
    calls: on a shallower stack it overflows the stack and returns
    nothing. *)
Theorem sum_to_n_triangular_safe n :
  0 <= n -> triangular n <= MAX_SAFE_INTEGER ->
  (forall steps, (Z.to_nat n < steps)%nat ->
     sum_to_n_a steps (Int n) = Some (Int (triangular n))) /\
  sum_to_n_b (Int n) = Int (triangular n) /\
  (forall stack, (Z.to_nat n < stack)%nat ->
     sum_to_n_c stack (Int n) = Some (Int (triangular n))) /\
  (forall stack, (stack <= Z.to_nat n)%nat -> sum_to_n_c stack (Int n) = None).
Proof.
  intros Hn Hsafe. split; [| split; [| split]].
  - intros steps Hsteps. apply sum_to_n_a_safe; assumption.
  - apply sum_to_n_b_safe; assumption.
  - intros stack Hstack. apply sum_to_n_c_safe; assumption.
  - intros stack Hstack.
    assert (Hn' : n <= 134217727) by (apply triangular_safe_range; assumption).
    apply sum_to_n_c_overflow; [rewrite pow2_53; lia | assumption].
Qed.

Lemma sum_to_n_triangular_safe_witness :
  sum_to_n_a (Z.to_nat 20001) (Int 20000) = Some (Int 200010000) /\
  sum_to_n_b (Int 20000) = Int 200010000 /\
  sum_to_n_c (Z.to_nat 20001) (Int 20000) = Some (Int 200010000) /\
  sum_to_n_c (Z.to_nat 10000) (Int 20000) = None.
Proof.
  destruct (sum_to_n_triangular_safe 20000 ltac:(lia) ltac:(vm_compute; discriminate))
    as (Ha & Hb & Hc & Hover).
  split; [apply (Ha (Z.to_nat 20001)); lia |].
  split; [exact Hb |].
  split; [apply (Hc (Z.to_nat 20001)); lia |].
  apply (Hover (Z.to_nat 10000)). lia.
Defined.

(** The loop of [sum_to_n_a] on 134217730: the first 134217727 turns are
    exact, the sum passes [2^53] in the next one, and the two turns after
    it each round a tie down. *)
Lemma sum_to_n_a_134217730 :
  sum_to_n_a (Z.to_nat 134217727 + 4) (Int 134217730) =
  Some (Int 9007199590285314).
Proof.
  unfold sum_to_n_a. change (Int 0) with (Int (triangular (1 - 1))).
  rewrite sum_to_n_a_loop_run.
  - vm_compute. reflexivity.
  - lia.
  - lia.
  - lia.
  - vm_compute. discriminate.
Qed.

(** C2 (as stated, refuted): on the integer 134217730 the loop of
    sum_to_n_a returns 9007199590285314 and the formula of sum_to_n_b
    returns 9007199590285316 (the triangular number is
    9007199590285315): whatever the fuel, a result of sum_to_n_a differs
    from that of sum_to_n_b. *)
Lemma sum_to_n_a_b_disagree :
  representable 134217730 /\
  sum_to_n_a (Z.to_nat 134217727 + 4) (Int 134217730) = Some (Int 9007199590285314) /\
  sum_to_n_b (Int 134217730) = Int 9007199590285316 /\
  ~ (exists fuel, sum_to_n_a fuel (Int 134217730) = Some (sum_to_n_b (Int 134217730))).
Proof.
  split; [vm_compute; reflexivity |].
  split; [exact sum_to_n_a_134217730 |].
  assert (Hb : sum_to_n_b (Int 134217730) = Int 9007199590285316)
    by (vm_compute; reflexivity).
  split; [exact Hb |].
  intros [fuel Hrun]. rewrite Hb in Hrun.
  pose proof (sum_to_n_a_deterministic _ _ _ _ _ Hrun sum_to_n_a_134217730) as Heq.
  discriminate Heq.
Qed.

(** C2 (amended): for every integer n that is negative, zero, or has
    n*(n+1)/2 at most Number.MAX_SAFE_INTEGER (n <= 134217727),
    sum_to_n_a(n) = sum_to_n_b(n), and sum_to_n_c(n) returns that same
    number exactly when the call stack has room for its max(n, 0) + 1
    nested calls: on a shallower stack it overflows the stack and
    returns nothing, so that there the three do not agree.  For every
    n <= 0 all three return 0, sum_to_n_c within a single call. *)
Theorem sum_to_n_agree_safe n :
  n <= 0 \/ triangular n <= MAX_SAFE_INTEGER ->
  (forall steps, (Z.to_nat n < steps)%nat ->
     sum_to_n_a steps (Int n) = Some (sum_to_n_b (Int n))) /\
  (forall stack, (Z.to_nat n < stack)%nat ->
     sum_to_n_c stack (Int n) = Some (sum_to_n_b (Int n))) /\
  (forall stack, (stack <= Z.to_nat n)%nat -> sum_to_n_c stack (Int n) = None) /\
  (n <= 0 -> forall steps stack, (0 < steps)%nat -> (0 < stack)%nat ->
   sum_to_n_a steps (Int n) = Some (Int 0) /\
   sum_to_n_b (Int n) = Int 0 /\
   sum_to_n_c stack (Int n) = Some (Int 0)).
Proof.
  intros Hn.
  assert (Hnonpos : n <= 0 -> forall steps stack, (0 < steps)%nat -> (0 < stack)%nat ->
    sum_to_n_a steps (Int n) = Some (Int 0) /\
    sum_to_n_b (Int n) = Int 0 /\
    sum_to_n_c stack (Int n) = Some (Int 0)).
  { intros Hle steps stack Hsteps Hstack. split; [| split].
    - apply sum_to_n_a_nonpos; assumption.
    - apply sum_to_n_b_nonpos; assumption.
    - apply sum_to_n_c_nonpos; assumption. }
  assert (Hbound : n <= 2 ^ 53).
  { rewrite pow2_53. destruct (Z.le_gt_cases n 0) as [Hle | Hpos]; [lia |].
    destruct Hn as [Hn | Hsafe]; [lia |].
    assert (n <= 134217727) by (apply triangular_safe_range; [lia | assumption]).
    lia. }
  split; [| split; [| split]].
  - intros steps Hsteps. destruct (Z.le_gt_cases n 0) as [Hle | Hpos].
    + rewrite sum_to_n_b_nonpos by assumption.
      apply sum_to_n_a_nonpos; [assumption | lia].
    + destruct Hn as [Hn | Hsafe]; [lia |].
      rewrite sum_to_n_b_safe by (assumption || lia).
      apply sum_to_n_a_safe; assumption || lia.
  - intros stack Hstack. destruct (Z.le_gt_cases n 0) as [Hle | Hpos].
    + rewrite sum_to_n_b_nonpos by assumption.
      apply sum_to_n_c_nonpos; [assumption | lia].
    + destruct Hn as [Hn | Hsafe]; [lia |].
      rewrite sum_to_n_b_safe by (assumption || lia).
      apply sum_to_n_c_safe; assumption || lia.
  - intros stack Hstack. apply sum_to_n_c_overflow; assumption.
  - exact Hnonpos.
Qed.

Lemma sum_to_n_agree_safe_witness :
  sum_to_n_a (Z.to_nat 20001) (Int 20000) = Some (sum_to_n_b (Int 20000)) /\
  sum_to_n_c (Z.to_nat 20001) (Int 20000) = Some (sum_to_n_b (Int 20000)) /\
  sum_to_n_b (Int 20000) = Int 200010000 /\
  sum_to_n_c (Z.to_nat 10000) (Int 20000) = None.
Proof.
  destruct (sum_to_n_agree_safe 20000
              ltac:(right; vm_compute; discriminate))
    as (Ha & Hc & Hover & _).
  split; [apply (Ha (Z.to_nat 20001)); lia |].
  split; [apply (Hc (Z.to_nat 20001)); lia |].
  split; [vm_compute; reflexivity |].
  apply (Hover (Z.to_nat 10000)). lia.
Defined.

(** At [2^54] the subtraction [n - 1] returns [n]: [2^54 - 1] is a tie
    between [2^54 - 2] and [2^54] and the even significand wins. *)
Lemma sub_1_stuck : sub (Int 18014398509481984) (Int 1) = Int 18014398509481984.
Proof. vm_compute. reflexivity. Qed.

Lemma sum_to_n_c_stuck fuel : sum_to_n_c fuel (Int 18014398509481984) = None.
Proof.
  induction fuel as [| fuel IH]; [reflexivity |].
  rewrite sum_to_n_c_S, sub_1_stuck, IH. reflexivity.
Qed.

(** C10 (as stated, refuted): on the integer input 2^54 =
    18014398509481984 the argument of the recursive call, n - 1, is n
    again, so the recursion does not decrease and no depth of recursion
    reaches the guard. *)
Lemma sum_to_n_c_diverges :
  representable 18014398509481984 /\
  sub (Int 18014398509481984) (Int 1) = Int 18014398509481984 /\
  ~ (exists fuel r, sum_to_n_c fuel (Int 18014398509481984) = Some r).
Proof.
  split; [vm_compute; reflexivity |].
  split; [exact sub_1_stuck |].
  intros (fuel & r & Hrun). rewrite sum_to_n_c_stuck in Hrun. discriminate.
Qed.

Lemma sum_to_n_c_wf_nonpos n : n <= 0 -> sum_to_n_c_wf n = Int 0.
Proof.
  intros Hn. simp sum_to_n_c_wf.
  destruct (Z_le_gt_dec n 0); [reflexivity | lia].
Qed.

Lemma sum_to_n_c_wf_pos n :
  0 < n -> sum_to_n_c_wf n = add (Int n) (sum_to_n_c_wf (n - 1)).
Proof.
  intros Hn. rewrite sum_to_n_c_wf_equation_1.
  destruct (Z_le_gt_dec n 0); [lia | reflexivity].
Qed.

Example sum_to_n_c_wf_100 : sum_to_n_c_wf 100 = Int 5050.
Proof. vm_compute. reflexivity. Qed.

Lemma sum_to_n_c_terminates_nat (k : nat) : forall n,
  n <= Z.of_nat k -> n <= 2 ^ 53 ->
  sum_to_n_c (S k) (Int n) = Some (sum_to_n_c_wf n).
Proof.
  induction k as [| k IH]; intros n Hk Hn.
  - rewrite sum_to_n_c_wf_nonpos by lia. apply sum_to_n_c_nonpos; lia.
  - destruct (Z.le_gt_cases n 0) as [Hle | Hpos].
    + rewrite sum_to_n_c_wf_nonpos by lia. apply sum_to_n_c_nonpos; lia.
    + rewrite sum_to_n_c_S. cbn [le].
      destruct (Z.leb_spec n 0); [lia |].
      rewrite sub_exact by lia.
      rewrite IH by lia.
      rewrite (sum_to_n_c_wf_pos n) by lia. reflexivity.
Qed.

(** C10 (amended): for every integer input n <= 2^53, n - 1 is
    computed exactly, so the recursion decreases n by 1 on each call and
    reaches the guard n <= 0 in exactly max(n, 0) + 1 nested calls:
    sum_to_n_c returns if and only if the call stack has room for these
    calls, and then it returns the value of the total function defined
    by well-founded recursion on n (0 within a single call for n <= 0);
    on a shallower stack it overflows the stack before the guard is
    reached. *)
Theorem sum_to_n_c_terminates n :
  n <= 2 ^ 53 ->
  (forall stack, (Z.to_nat n < stack)%nat ->
     sum_to_n_c stack (Int n) = Some (sum_to_n_c_wf n)) /\
  (forall stack, (stack <= Z.to_nat n)%nat -> sum_to_n_c stack (Int n) = None) /\
  (0 < n -> sub (Int n) (Int 1) = Int (n - 1)) /\
  (n <= 0 -> forall stack, (0 < stack)%nat -> sum_to_n_c stack (Int n) = Some (Int 0)).
Proof.
  intros Hn. split; [| split; [| split]].
  - intros stack Hstack.
    apply (sum_to_n_c_fuel (S (Z.to_nat n))); [| lia].
    apply sum_to_n_c_terminates_nat; lia.
  - intros stack Hstack. apply sum_to_n_c_overflow; assumption.
  - intros Hpos. apply sub_exact. lia.
  - intros Hle stack Hstack. apply sum_to_n_c_nonpos; assumption.
Qed.

Lemma sum_to_n_c_terminates_witness :
  sum_to_n_c (Z.to_nat 20001) (Int 20000) = Some (sum_to_n_c_wf 20000) /\
  sum_to_n_c (Z.to_nat 10000) (Int 20000) = None /\
  sub (Int 20000) (Int 1) = Int 19999.
Proof.
  destruct (sum_to_n_c_terminates 20000 ltac:(vm_compute; discriminate))
    as (Hc & Hover & Hsub & _).
  split; [apply (Hc (Z.to_nat 20001)); lia |].
  split; [apply (Hover (Z.to_nat 10000)); lia |].
  apply Hsub. lia.
Defined.

(** ** The model against binary64 arithmetic

    The values computed with [Number] above are the ones the IEEE 754
    operations give. *)

Example binary64_sum_to_n_b_134217729 :
  Binary64.sum_to_n_b (Binary64.of_Z 134217729) = Binary64.of_Z 9007199456067584.
Proof. vm_compute. reflexivity. Qed.

Example binary64_sum_to_n_b_134217730 :
  Binary64.sum_to_n_b (Binary64.of_Z 134217730) = Binary64.of_Z 9007199590285316.
Proof. vm_compute. reflexivity. Qed.

(** The last four tests of the loop of [sum_to_n_a] on 134217730, from
    the exact partial sum [triangular 134217727]. *)
Example binary64_sum_to_n_a_tail :
  Binary64.sum_to_n_a_loop 4 (Binary64.of_Z 134217730) (Binary64.of_Z 134217728)
    (Binary64.of_Z (triangular 134217727)) =
  Some (Binary64.of_Z 9007199590285314).
Proof. vm_compute. reflexivity. Qed.

Example binary64_sub_1_stuck :
  PrimFloat.sub (Binary64.of_Z 18014398509481984) 1 = Binary64.of_Z 18014398509481984.
Proof. vm_compute. reflexivity. Qed.

Example binary64_sum_to_n_100 :
  Binary64.sum_to_n_a 101 (Binary64.of_Z 100) = Some (Binary64.of_Z 5050) /\
  Binary64.sum_to_n_b (Binary64.of_Z 100) = Binary64.of_Z 5050 /\
  Binary64.sum_to_n_c 101 (Binary64.of_Z 100) = Some (Binary64.of_Z 5050).
Proof. vm_compute. auto. Qed.

(** Sweeps around the powers of two where the spacing of the numbers
    changes, and around the inputs of the statements above. *)
Example binary64_fl_sweep :
  forallb fl_agrees
    (sweep 200 (2 ^ 53 - 100) 1 ++ sweep 200 (2 ^ 54 - 100) 1 ++
     sweep 200 (2 ^ 55 - 200) 3 ++ sweep 200 (2 ^ 60) 123456789 ++
     sweep 200 (- 2 ^ 53 - 100) 1 ++ sweep 200 (2 ^ 62 - 300000) 1001) = true.
Proof. vm_compute. reflexivity. Qed.

Example binary64_sums_sweep :
  forallb (fun a => sums_agree a 1) (sweep 200 (2 ^ 53 - 100) 1) &&
  forallb (fun a => sums_agree a 1) (sweep 200 (2 ^ 54 - 200) 2) &&
  forallb (fun a => sums_agree a (- 1)) (sweep 200 (- 2 ^ 54 - 200) 2) &&
  forallb (fun a => sums_agree (triangular a) (a + 1)) (sweep 200 134217630 1) = true.
Proof. vm_compute. reflexivity. Qed.

Example binary64_products_sweep :
  forallb (fun a => products_agree a (a + 1)) (sweep 200 134217630 1) &&
  forallb (fun a => products_agree a (a + 1)) (sweep 200 (2 ^ 30) 12345) &&
  forallb (fun a => products_agree a (- a - 1)) (sweep 200 94906200 1) = true.
Proof. vm_compute. reflexivity. Qed.

Example binary64_sum_to_n_b_sweep :
  forallb sum_to_n_b_agrees
    (sweep 200 (-100) 1 ++ sweep 200 134217630 1 ++ sweep 200 (2 ^ 30) 12345) = true.
Proof. vm_compute. reflexivity. Qed.

(** ** The cases of the repository's test file (index.test.ts)

    The expected values are the ones the tests assert; the two inputs
    the tests leave out as non-terminating do not terminate here. *)

Example test_cases :
  map (fun n => sum_to_n_b (Int n)) [1; 5; 10; 100; 0; -5] =
  map Int [1; 15; 55; 5050; 0; 0] /\
  map (fun n => sum_to_n_a 101 (Int n)) [1; 5; 10; 100; 0; -5] =
  map (fun r => Some (Int r)) [1; 15; 55; 5050; 0; 0] /\
  map (fun n => sum_to_n_c 101 (Int n)) [1; 5; 10; 100; 0; -5] =
  map (fun r => Some (Int r)) [1; 15; 55; 5050; 0; 0].
Proof. vm_compute. repeat split; reflexivity. Qed.

Example test_NaN :
  sum_to_n_a 1 NaN = Some (Int 0) /\ sum_to_n_b NaN = NaN.
Proof. split; reflexivity. Qed.

Example test_negative_infinity :
  sum_to_n_a 1 NegInfinity = Some (Int 0) /\
  sum_to_n_b NegInfinity = Int 0 /\
  sum_to_n_c 1 NegInfinity = Some (Int 0).
Proof. repeat split; reflexivity. Qed.

(** 'sum_to_n_c(NaN) causes stack overflow - NaN <= 0 is false'. *)
Example test_sum_to_n_c_NaN fuel : sum_to_n_c fuel NaN = None.
Proof.
  induction fuel as [| fuel IH]; [reflexivity |].
  rewrite sum_to_n_c_S. cbn [le sub neg add]. rewrite IH. reflexivity.
Qed.

(** 'sum_to_n_a(Infinity) creates infinite loop (1 <= Infinity always
    true)'. *)
Example test_sum_to_n_a_Infinity fuel : sum_to_n_a fuel PosInfinity = None.
Proof.
  unfold sum_to_n_a.
  assert (Hloop : forall i sum, i <> NaN ->
            sum_to_n_a_loop fuel PosInfinity i sum = None).
  { induction fuel as [| fuel IH]; intros i sum Hi; [reflexivity |].
    rewrite sum_to_n_a_loop_S.
    destruct i as [z | | |]; cbn [le]; try contradiction; apply IH; cbn [add];
      try discriminate.
    apply fl_not_NaN. }
  apply Hloop. discriminate.
Qed.

(** ** Authentication: src/problem5/src/utils/jwt.util.ts *)

Local Open Scope string_scope.

Lemma UnauthorizedError_instanceof msg :
  instanceof_UnauthorizedError (UnauthorizedError msg) = true.
Proof. reflexivity. Qed.

Lemma verifyToken_throws jwt_verify secret token err :
  verifyToken jwt_verify secret token = Throws err ->
  exists error, jwt_verify token secret = Throws error /\
    err = UnauthorizedError
            (if instanceof_TokenExpiredError error then "Token has expired"
             else if instanceof_JsonWebTokenError error then "Invalid token"
             else "Token verification failed").
Proof.
  unfold verifyToken. destruct (jwt_verify token secret) as [decoded | error].
  - discriminate.
  - intros Hthrow. exists error. split; [reflexivity |].
    destruct (instanceof_TokenExpiredError error);
      [| destruct (instanceof_JsonWebTokenError error)];
      injection Hthrow as <-; reflexivity.
Qed.

(** C7: verifyToken is total with two outcomes.  Whatever jwt.verify
    does on a token, either it returns a payload and verifyToken returns
    that payload (userId, email), or it throws and verifyToken throws an
    UnauthorizedError whose message is 'Token has expired' for a
    TokenExpiredError, 'Invalid token' for any other JsonWebTokenError
    (two distinct messages) and 'Token verification failed' otherwise;
    nothing but an UnauthorizedError is ever thrown by verifyToken. *)
Theorem verifyToken_two_outcomes
  (jwt_verify : string -> string -> outcome JwtPayload) (secret token : string) :
  ((exists payload,
      jwt_verify token secret = Returns payload /\
      verifyToken jwt_verify secret token = Returns payload) \/
   (exists error msg,
      jwt_verify token secret = Throws error /\
      verifyToken jwt_verify secret token = Throws (UnauthorizedError msg) /\
      (instanceof_TokenExpiredError error = true -> msg = "Token has expired") /\
      (instanceof_TokenExpiredError error = false ->
       instanceof_JsonWebTokenError error = true -> msg = "Invalid token") /\
      (instanceof_JsonWebTokenError error = false ->
       msg = "Token verification failed"))) /\
  (forall err, verifyToken jwt_verify secret token = Throws err ->
     instanceof_UnauthorizedError err = true) /\
  "Token has expired" <> "Invalid token".
Proof.
  split; [| split].
  - unfold verifyToken.
    destruct (jwt_verify token secret) as [decoded | error].
    + left. exists decoded. split; reflexivity.
    + right. exists error.
      destruct error as [errors | e | [ | | ] m | m]; cbn;
        eexists; (split; [reflexivity |]); (split; [reflexivity |]);
        repeat split; intros; congruence.
  - intros err Hthrow.
    destruct (verifyToken_throws _ _ _ _ Hthrow) as (error & _ & ->).
    apply UnauthorizedError_instanceof.
  - discriminate.
Qed.

(** The middleware that calls [verifyToken] passes on ([next()]) a
    request carrying the payload, or hands an [UnauthorizedError] to the
    error handler; it never answers itself and never touches the world. *)
Lemma authMiddleware_outcomes {B : Type}
  (jwt_verify : string -> string -> outcome JwtPayload) (secret : string)
  (req : Request B) (w : World) :
  snd (authMiddleware jwt_verify secret req w) = w /\
  ((exists payload,
      fst (authMiddleware jwt_verify secret req w) =
      Next (mkRequest (req_path req) (req_method req) (req_authorization req)
              (req_data req) (Some payload))) \/
   (exists err,
      fst (authMiddleware jwt_verify secret req w) = NextErr err /\
      instanceof_UnauthorizedError err = true)).
Proof.
  unfold authMiddleware.
  destruct (req_authorization req) as [authHeader |].
  - destruct (String.prefix "Bearer " authHeader).
    + destruct (verifyToken jwt_verify secret _) as [payload | err] eqn:Hv.
      * split; [reflexivity |]. left. exists payload. reflexivity.
      * split; [reflexivity |]. right. exists err. split; [reflexivity |].
        destruct (verifyToken_throws _ _ _ _ Hv) as (error & _ & ->).
        reflexivity.
    + split; [reflexivity |]. right. eexists. split; reflexivity.
  - split; [reflexivity |]. right. eexists. split; reflexivity.
Qed.

(** ** The error handler: src/problem5/src/middleware/error.middleware.ts *)








(** The errors the services throw are answered with their own status. *)
Example errorHandler_service_errors {B : Type} (req : Request B) w :
  status (fst (errorHandler (NotFoundError "User not found") req w)) = 404%Z /\
  status (fst (errorHandler (UnauthorizedError "Invalid token") req w)) = 401%Z.
Proof. split; reflexivity. Qed.



(** ** The user service: src/problem5/src/services/user.service.ts *)

(** [await] on a call that resolves, and on one that rejects. *)
Lemma await_returns {A B : Type} (m : Async A) (k : A -> Async B) w a w' :
  m w = (Returns a, w') -> await m k w = k a w'.
Proof. intros Hm. unfold await. rewrite Hm. reflexivity. Qed.

Lemma await_throws {A B : Type} (m : Async A) (k : A -> Async B) w err w' :
  m w = (Throws err, w') -> await m k w = (Throws err, w').
Proof. intros Hm. unfold await. rewrite Hm. reflexivity. Qed.

Lemma logger_returns lvl msg w : logger lvl msg w = (Returns tt, logged lvl msg w).
Proof. reflexivity. Qed.

(** [getById] on an id with no row: one lookup, then [NotFoundError]. *)
Lemma getById_not_found id w :
  users w !! id = None ->
  userService.getById id w =
  (Throws (NotFoundError "User not found"), sent (FindUnique id) w).
Proof.
  intros Hnone. unfold userService.getById.
  rewrite (await_returns _ _ w None (sent (FindUnique id) w)).
  - reflexivity.
  - unfold prisma_user_findUnique. rewrite Hnone. reflexivity.
Qed.

Lemma getById_found id w u :
  users w !! id = Some u ->
  userService.getById id w = (Returns u, sent (FindUnique id) w).
Proof.
  intros Hsome. unfold userService.getById.
  rewrite (await_returns _ _ w (Some u) (sent (FindUnique id) w)).
  - reflexivity.
  - unfold prisma_user_findUnique. rewrite Hsome. reflexivity.
Qed.

(** The common start of [update], [patch] and [delete]: a log line,
    then [getById], which rejects. *)
Ltac not_found_path Hnone :=
  erewrite await_returns by apply logger_returns;
  erewrite await_throws by (apply getById_not_found; exact Hnone);
  reflexivity.

(** The world in which a service call on a missing id ends: one log
    line and the lookup, nothing else. *)
Lemma update_not_found id data w :
  users w !! id = None ->
  userService.update id data w =
  (Throws (NotFoundError "User not found"),
   sent (FindUnique id) (logged LInfo "Updating user" w)).
Proof. intros Hnone. unfold userService.update. not_found_path Hnone. Qed.

Lemma patch_not_found id data w :
  users w !! id = None ->
  userService.patch id data w =
  (Throws (NotFoundError "User not found"),
   sent (FindUnique id) (logged LInfo "Patching user" w)).
Proof. intros Hnone. unfold userService.patch. not_found_path Hnone. Qed.

Lemma delete_not_found id w :
  users w !! id = None ->
  userService.delete id w =
  (Throws (NotFoundError "User not found"),
   sent (FindUnique id) (logged LInfo "Deleting user" w)).
Proof. intros Hnone. unfold userService.delete. not_found_path Hnone. Qed.

(** On an existing id the same calls do write: the row is replaced
    (or removed) after the lookup. *)
Lemma prisma_user_update_found id data w u :
  users w !! id = Some u ->
  prisma_user_update id data w =
  (Returns (mkUser (user_id (data u)) (user_firstName (data u))
              (user_lastName (data u)) (user_age (data u))
              (user_createdAt (data u)) (now w)),
   store (<[id := mkUser (user_id (data u)) (user_firstName (data u))
                    (user_lastName (data u)) (user_age (data u))
                    (user_createdAt (data u)) (now w)]> (users w))
     (sent (Update id) w)).
Proof. intros Hsome. unfold prisma_user_update. rewrite Hsome. reflexivity. Qed.

Lemma prisma_user_delete_found id w u :
  users w !! id = Some u ->
  prisma_user_delete id w =
  (Returns u, store (delete id (users w)) (sent (Delete id) w)).
Proof. intros Hsome. unfold prisma_user_delete. rewrite Hsome. reflexivity. Qed.

Lemma update_found id data w u :
  users w !! id = Some u ->
  exists u', fst (userService.update id data w) = Returns u' /\
    user_firstName u' = dto_firstName data /\
    user_lastName u' = dto_lastName data /\
    user_age u' = dto_age data /\
    users (snd (userService.update id data w)) = <[id := u']> (users w) /\
    queries (snd (userService.update id data w)) =
      (queries w ++ [FindUnique id; Update id])%list.
Proof.
  intros Hsome. unfold userService.update.
  erewrite await_returns by apply logger_returns.
  erewrite await_returns by (apply (getById_found _ _ u); exact Hsome).
  erewrite await_returns by (apply (prisma_user_update_found _ _ _ u); exact Hsome).
  erewrite await_returns by apply logger_returns.
  cbn. eexists. repeat split.
  rewrite <- app_assoc. reflexivity.
Qed.

Lemma delete_found id w u :
  users w !! id = Some u ->
  fst (userService.delete id w) = Returns tt /\
  users (snd (userService.delete id w)) = delete id (users w) /\
  queries (snd (userService.delete id w)) =
    (queries w ++ [FindUnique id; Delete id])%list.
Proof.
  intros Hsome. unfold userService.delete.
  erewrite await_returns by apply logger_returns.
  erewrite await_returns by (apply (getById_found _ _ u); exact Hsome).
  erewrite await_returns by (apply (prisma_user_delete_found _ _ u); exact Hsome).
  erewrite await_returns by apply logger_returns.
  cbn. repeat split.
  rewrite <- app_assoc. reflexivity.
Qed.

(** C9: for an id that identifies no user, userService.update,
    userService.patch and userService.delete each end by throwing
    NotFoundError('User not found'), the one getById throws when the
    lookup returns no user; the only query sent to the database is that
    lookup (no write), and the user table is unchanged. *)
Theorem userService_not_found
  (id : string) (data : UpdateUserDto) (fields : PatchUserDto) (w : World) :
  users w !! id = None ->
  ends_not_found id w (userService.getById id w) /\
  ends_not_found id w (userService.update id data w) /\
  ends_not_found id w (userService.patch id fields w) /\
  ends_not_found id w (userService.delete id w).
Proof.
  intros Hnone. unfold ends_not_found.
  rewrite getById_not_found, update_not_found, patch_not_found, delete_not_found
    by exact Hnone.
  repeat split; reflexivity.
Qed.

Lemma userService_not_found_witness :
  let id := "123e4567-e89b-12d3-a456-426614174000" in
  let w := mkWorld ∅ [] [] 0 in
  let data := mkUpdateUserDto "John" "Doe" 30 in
  let fields := mkPatchUserDto (Some "Jane") None None in
  fst (userService.update id data w) = Throws (NotFoundError "User not found") /\
  fst (userService.patch id fields w) = Throws (NotFoundError "User not found") /\
  fst (userService.delete id w) = Throws (NotFoundError "User not found") /\
  users (snd (userService.update id data w)) = ∅.
Proof.
  intros id w data fields.
  pose proof (userService_not_found id data fields w ltac:(reflexivity))
    as (_ & (Hu & Hus & _) & (Hp & _) & (Hd & _)).
  repeat split; assumption.
Defined.

(** Over HTTP: the route [PUT /api/users/:id], once past validation,
    answers 404 'NOT_FOUND' for a missing id (the integration tests
    'should return 404 for non-existent user'). *)
Lemma update_route_not_found id data (req : Request UpdateUserDto) w :
  users w !! id = None ->
  req_data req = mkRequestData data [] id ->
  fst (dispatch [userController.update] req w) =
  mkResponse 404 (ErrorBody (mkErrorResponse "User not found" "NOT_FOUND" Undefined)) /\
  users (snd (dispatch [userController.update] req w)) = users w.
Proof.
  intros Hnone Hreq. cbn [dispatch]. unfold userController.update.
  rewrite Hreq. cbn [params_id body].
  rewrite update_not_found by exact Hnone.
  split; reflexivity.
Qed.

(** On an existing id the service does write: the not-found path is the
    only one that leaves the table alone. *)
Example update_existing_user :
  let u := mkUser "u1" "John" "Doe" 30 0 0 in
  let w := mkWorld {[ "u1" := u ]} [] [] 5 in
  let r := userService.update "u1" (mkUpdateUserDto "Jane" "Doe" 31) w in
  fst r = Returns (mkUser "u1" "Jane" "Doe" 31 0 5) /\
  users (snd r) !! "u1" = Some (mkUser "u1" "Jane" "Doe" 31 0 5) /\
  queries (snd r) = [FindUnique "u1"; Update "u1"].
Proof. vm_compute. repeat split; reflexivity. Qed.

(* ===================================================================== *)
(** * Part III. Further properties of the code *)
(* ===================================================================== *)

Local Close Scope string_scope.

(** ** src/problem4/index.ts beyond the safe integers *)

Lemma add_comm x y : add x y = add y x.
Proof.
  destruct x as [a | | |], y as [b | | |]; cbn [add]; try reflexivity.
  rewrite Z.add_comm. reflexivity.
Qed.

(** Integers up to [2^53] in magnitude are numbers. *)
Lemma fl_le_53 z : Z.abs z <= 2 ^ 53 -> fl z = Int z.
Proof.
  intros Hz.
  destruct (Z.eq_dec z (2 ^ 53)) as [-> | Hne]; [vm_compute; reflexivity |].
  destruct (Z.eq_dec z (- 2 ^ 53)) as [-> | Hne']; [vm_compute; reflexivity |].
  apply fl_small. rewrite pow2_53 in *. lia.
Qed.

Lemma add_exact_le a b :
  - 2 ^ 53 <= a + b <= 2 ^ 53 -> add (Int a) (Int b) = Int (a + b).
Proof. intros H. cbn [add]. apply fl_le_53. lia. Qed.

(** [k] turns of the loop from [i], with [i] at most [2^53]: the sum
    after [i - 1] turns is what the recursion returns on [i - 1]. *)
Lemma sum_to_n_a_loop_wf_nat (k : nat) : forall fuel n i,
  1 <= i -> i + Z.of_nat k - 1 <= n -> i + Z.of_nat k <= 2 ^ 53 ->
  sum_to_n_a_loop (k + fuel) (Int n) (Int i) (sum_to_n_c_wf (i - 1)) =
  sum_to_n_a_loop fuel (Int n) (Int (i + Z.of_nat k))
    (sum_to_n_c_wf (i + Z.of_nat k - 1)).
Proof.
  induction k as [| k IH]; intros fuel n i Hi Hn Hbound.
  - cbn [Nat.add]. rewrite Nat2Z.inj_0, Z.add_0_r. reflexivity.
  - rewrite Nat2Z.inj_succ in *.
    cbn [Nat.add]. rewrite sum_to_n_a_loop_S. cbn [le].
    destruct (Z.leb_spec i n); [| lia].
    rewrite (add_exact_le i 1) by lia.
    rewrite (add_comm (sum_to_n_c_wf (i - 1)) (Int i)).
    rewrite <- (sum_to_n_c_wf_pos i) by lia.
    replace i with (i + 1 - 1) at 2 by lia.
    rewrite (IH fuel n (i + 1)) by lia.
    replace (i + 1 + Z.of_nat k) with (i + Z.succ (Z.of_nat k)) by lia.
    reflexivity.
Qed.

Lemma sum_to_n_a_wf n fuel :
  0 <= n < 2 ^ 53 -> (Z.to_nat n < fuel)%nat ->
  sum_to_n_a fuel (Int n) = Some (sum_to_n_c_wf n).
Proof.
  intros [Hn Hb] Hfuel.
  apply (sum_to_n_a_loop_fuel (Z.to_nat n + 1)); [| lia].
  unfold sum_to_n_a.
  replace (Int 0) with (sum_to_n_c_wf (1 - 1))
    by (apply sum_to_n_c_wf_nonpos; lia).
  rewrite sum_to_n_a_loop_wf_nat by (rewrite ?Z2Nat.id by lia; lia).
  rewrite Z2Nat.id by lia.
  rewrite sum_to_n_a_loop_S. cbn [le].
  destruct (Z.leb_spec (1 + n) n); [lia |].
  replace (1 + n - 1) with n by lia. reflexivity.
Qed.

(** X1.  On every integer n below 2^53, also where the sums are
    rounded, the loop of sum_to_n_a and the recursion of sum_to_n_c
    return the same number: both add 1, 2, ..., n in this order. *)
Theorem sum_to_n_a_c_agree n fuel :
  n < 2 ^ 53 -> (Z.to_nat n < fuel)%nat ->
  exists r, sum_to_n_a fuel (Int n) = Some r /\ sum_to_n_c fuel (Int n) = Some r.
Proof.
  intros Hn Hfuel. exists (sum_to_n_c_wf n). split.
  - destruct (Z.le_gt_cases n 0) as [Hle | Hpos].
    + rewrite sum_to_n_c_wf_nonpos by lia. apply sum_to_n_a_nonpos; lia.
    + apply sum_to_n_a_wf; lia.
  - apply (sum_to_n_c_fuel (S (Z.to_nat n))); [| lia].
    apply sum_to_n_c_terminates_nat; lia.
Qed.

Lemma sum_to_n_a_c_agree_witness :
  exists r, sum_to_n_a (Z.to_nat 200000000 + 1) (Int 200000000) = Some r /\
            sum_to_n_c (Z.to_nat 200000000 + 1) (Int 200000000) = Some r.
Proof.
  apply (sum_to_n_a_c_agree 200000000).
  - vm_compute. reflexivity.
  - lia.
Defined.

(** At [2^53] the increment [i++] returns [i]. *)
Lemma add_1_stuck : add (Int (2 ^ 53)) (Int 1) = Int (2 ^ 53).
Proof. vm_compute. reflexivity. Qed.

Lemma sum_to_n_a_loop_stuck fuel : forall n i sum,
  2 ^ 53 <= n -> 1 <= i <= 2 ^ 53 ->
  sum_to_n_a_loop fuel (Int n) (Int i) sum = None.
Proof.
  induction fuel as [| fuel IH]; intros n i sum Hn Hi; [reflexivity |].
  rewrite sum_to_n_a_loop_S. cbn [le].
  destruct (Z.leb_spec i n); [| lia].
  destruct (Z.eq_dec i (2 ^ 53)) as [-> | Hne].
  - rewrite add_1_stuck. apply IH; lia.
  - rewrite (add_exact_le i 1) by lia. apply IH; lia.
Qed.

(** X2.  On every integer n >= 2^53 the loop of sum_to_n_a never ends:
    the counter i stops growing at 2^53, where i + 1 is i, and i <= n
    stays true. *)
Theorem sum_to_n_a_diverges n fuel :
  2 ^ 53 <= n -> sum_to_n_a fuel (Int n) = None.
Proof.
  intros Hn. unfold sum_to_n_a. apply sum_to_n_a_loop_stuck; [assumption |].
  rewrite pow2_53. lia.
Qed.

Lemma sum_to_n_a_diverges_witness :
  sum_to_n_a 1000 (Int 9007199254740992) = None.
Proof.
  apply (sum_to_n_a_diverges 9007199254740992 1000).
  vm_compute. discriminate.
Defined.

(** What rounding does to an integer [z >= 2^53]: the result is a
    multiple [q' * 2h] of the spacing [2h = 2^(log2 z - 52)], at most
    half a spacing from [z] and not below [2^(log2 z)]. *)
Lemma round53_large z :
  2 ^ 53 <= z ->
  exists q' h, 0 < h /\ round53 z = q' * (2 * h) /\
    h * 2 ^ 53 = 2 ^ Z.log2 z /\
    - h <= q' * (2 * h) - z <= h /\
    2 ^ Z.log2 z <= q' * (2 * h).
Proof.
  intros Hz. rewrite pow2_53 in Hz.
  assert (Hpos : 0 < z) by lia.
  assert (Hlog : 53 <= Z.log2 z).
  { apply Z.log2_le_pow2; [lia |]. rewrite pow2_53. lia. }
  destruct (Z.log2_spec z Hpos) as [Hlo _].
  unfold round53. rewrite (Z.abs_eq z) by lia.
  destruct (Z.ltb_spec z (2 ^ 53)); [rewrite pow2_53 in *; lia |].
  rewrite Z.sgn_pos by lia.
  set (e := Z.log2 z - 52).
  set (h := 2 ^ (e - 1)).
  assert (Hh : 0 < h) by (apply Z.pow_pos_nonneg; lia).
  assert (He : 2 ^ e = 2 * h).
  { unfold h. replace e with (Z.succ (e - 1)) at 1 by lia.
    apply Z.pow_succ_r. lia. }
  assert (HL : h * 2 ^ 53 = 2 ^ Z.log2 z).
  { unfold h. rewrite <- Z.pow_add_r by lia. f_equal. lia. }
  rewrite He.
  pose proof (Z.div_mod z (2 * h) ltac:(lia)) as Hdm.
  pose proof (Z.mod_pos_bound z (2 * h) ltac:(lia)) as Hr.
  set (q := z / (2 * h)) in *. set (r := z mod (2 * h)) in *.
  assert (Hq : 2 ^ 52 <= q).
  { apply Z.div_le_lower_bound; [lia |].
    change (2 ^ 53) with (2 * 2 ^ 52) in HL. nia. }
  exists (round_half_even q r h), h.
  split; [exact Hh |]. split; [lia |]. split; [exact HL |].
  change (2 ^ 53) with (2 * 2 ^ 52) in HL.
  unfold round_half_even.
  destruct (Z.ltb_spec r h); [split; nia |].
  destruct (Z.ltb_spec h r); [split; nia |].
  destruct (Z.even q); split; nia.
Qed.

Lemma round53_nonneg z : 0 <= z -> 0 <= round53 z.
Proof.
  intros Hz. destruct (Z.lt_ge_cases z (2 ^ 53)) as [Hs | Hb].
  - rewrite round53_small; [assumption |]. rewrite Z.abs_eq; assumption.
  - destruct (round53_large z Hb) as (q' & h & Hh & -> & HL & Herr & Hge).
    pose proof (Z.pow_pos_nonneg 2 (Z.log2 z) ltac:(lia) (Z.log2_nonneg z)). lia.
Qed.

(** Rounding does not cross a power of two from above. *)
Lemma round53_ge_pow2 z k : 53 <= k -> 2 ^ k <= z -> 2 ^ k <= round53 z.
Proof.
  intros Hk Hz.
  assert (H53 : 2 ^ 53 <= 2 ^ k) by (apply Z.pow_le_mono_r; lia).
  assert (Hkl : k <= Z.log2 z).
  { apply Z.log2_le_pow2; [rewrite pow2_53 in H53; lia | assumption]. }
  destruct (round53_large z ltac:(lia)) as (q' & h & Hh & -> & HL & Herr & Hge).
  etransitivity; [| exact Hge]. apply Z.pow_le_mono_r; lia.
Qed.

(** The relative error of rounding is at most [2^-53]. *)
Lemma round53_error z :
  0 <= z -> - z <= (round53 z - z) * 2 ^ 53 <= z.
Proof.
  intros Hz. destruct (Z.lt_ge_cases z (2 ^ 53)) as [Hs | Hb].
  - rewrite round53_small by (rewrite Z.abs_eq; assumption). lia.
  - destruct (round53_large z Hb) as (q' & h & Hh & -> & HL & Herr & Hge).
    assert (Hpos : 0 < z) by (rewrite pow2_53 in Hb; lia).
    destruct (Z.log2_spec z Hpos) as [Hlo _].
    rewrite pow2_53 in *. nia.
Qed.

(** Rounding a non-negative integer gives a non-negative number or
    [+Infinity]. *)
Lemma fl_nonneg z :
  0 <= z -> fl z = PosInfinity \/ (fl z = Int (round53 z) /\ 0 <= round53 z).
Proof.
  intros Hz. pose proof (round53_nonneg z Hz) as Hr. unfold fl.
  destruct (Z.leb_spec (2 ^ 1024) (round53 z)); [left; reflexivity |].
  destruct (Z.leb_spec (round53 z) (- 2 ^ 1024)) as [Hneg |]; [| right; auto].
  exfalso. pose proof (Z.pow_pos_nonneg 2 1024 ltac:(lia) ltac:(lia)). lia.
Qed.

(** X3.  For every integer 0 <= n < 2^53, sum_to_n_b returns an integer
    r within relative error 2^-53 of the triangular number:
    |r - n(n+1)/2| * 2^53 <= n(n+1)/2. *)
Theorem sum_to_n_b_error n :
  0 <= n < 2 ^ 53 ->
  exists r, sum_to_n_b (Int n) = Int r /\
    - triangular n <= (r - triangular n) * 2 ^ 53 <= triangular n.
Proof.
  intros [Hn Hb].
  destruct (Z.eq_dec n 0) as [-> | Hne].
  { exists 0. split; [reflexivity |]. rewrite triangular_0. lia. }
  pose proof (triangular_double n) as Hd.
  assert (Hz : 0 <= n * (n + 1)) by nia.
  unfold sum_to_n_b. cbn [le].
  destruct (Z.leb_spec n 0); [lia |].
  rewrite (add_exact_le n 1) by lia. cbn [mul].
  pose proof (round53_error _ Hz) as Herr.
  pose proof (round53_even _ (even_mul_succ n)) as Hev.
  assert (Hfin : round53 (n * (n + 1)) < 2 ^ 1024).
  { assert (Hsq : n * (n + 1) < 2 ^ 53 * 2 ^ 53) by nia.
    assert (Hbig : 2 * (2 ^ 53 * 2 ^ 53) <= 2 ^ 1024).
    { change (2 * (2 ^ 53 * 2 ^ 53)) with (2 ^ 107).
      apply Z.pow_le_mono_r; lia. }
    assert (0 < 2 ^ 53) by (rewrite pow2_53; lia). nia. }
  rewrite fl_finite
    by (split; [pose proof (round53_nonneg _ Hz);
                pose proof (Z.pow_pos_nonneg 2 1024 ltac:(lia) ltac:(lia)); lia
               | exact Hfin]).
  cbn [half]. eexists. split; [reflexivity |].
  apply Z.even_spec in Hev. destruct Hev as [k Hk]. rewrite Hk.
  replace (2 * k / 2) with k by (rewrite Z.mul_comm, Z.div_mul; lia).
  rewrite Hk in Herr. lia.
Qed.

Lemma sum_to_n_b_error_witness :
  exists r, sum_to_n_b (Int 134217730) = Int r /\
    - triangular 134217730 <= (r - triangular 134217730) * 2 ^ 53
      <= triangular 134217730.
Proof.
  apply (sum_to_n_b_error 134217730). vm_compute. split; [discriminate | reflexivity].
Defined.

(** X4.  On an integer input sum_to_n_b never returns NaN, -Infinity or
    a negative number: the result is a non-negative integer or
    +Infinity. *)
Theorem sum_to_n_b_nonneg n :
  sum_to_n_b (Int n) = PosInfinity \/
  exists r, sum_to_n_b (Int n) = Int r /\ 0 <= r.
Proof.
  unfold sum_to_n_b. cbn [le].
  destruct (Z.leb_spec n 0) as [Hle | Hpos].
  { right. exists 0. split; [reflexivity | lia]. }
  cbn [add].
  destruct (fl_nonneg (n + 1) ltac:(lia)) as [-> | [-> Hm]].
  - left. cbn [mul]. destruct (Z.eqb_spec n 0); [lia |].
    destruct (Z.ltb_spec 0 n); [reflexivity | lia].
  - cbn [mul].
    destruct (fl_nonneg (n * round53 (n + 1)) ltac:(nia)) as [-> | [-> Hr]].
    + left. reflexivity.
    + right. cbn [half]. eexists. split; [reflexivity |].
      apply Z.div_pos; lia.
Qed.

(** X5.  From n = 2^512 on, the product n * (n + 1) overflows the
    binary64 range and sum_to_n_b returns +Infinity. *)
Theorem sum_to_n_b_overflow n :
  2 ^ 512 <= n -> sum_to_n_b (Int n) = PosInfinity.
Proof.
  intros Hn.
  assert (H512 : 0 < 2 ^ 512) by (apply Z.pow_pos_nonneg; lia).
  unfold sum_to_n_b. cbn [le].
  destruct (Z.leb_spec n 0); [lia |].
  cbn [add].
  destruct (fl_nonneg (n + 1) ltac:(lia)) as [-> | [-> Hm]].
  - cbn [mul]. destruct (Z.eqb_spec n 0); [lia |].
    destruct (Z.ltb_spec 0 n); [reflexivity | lia].
  - cbn [mul].
    pose proof (round53_ge_pow2 (n + 1) 512 ltac:(lia) ltac:(lia)) as Hm'.
    assert (Hprod : 2 ^ 1024 <= n * round53 (n + 1)).
    { change (2 ^ 1024) with (2 ^ 512 * 2 ^ 512).
      apply Z.mul_le_mono_nonneg; lia. }
    pose proof (round53_ge_pow2 _ 1024 ltac:(lia) Hprod) as Hr.
    unfold fl. destruct (Z.leb_spec (2 ^ 1024) (round53 (n * round53 (n + 1))));
      [reflexivity | lia].
Qed.

Lemma sum_to_n_b_overflow_witness :
  sum_to_n_b (Int (2 ^ 600)) = PosInfinity.
Proof.
  apply (sum_to_n_b_overflow (2 ^ 600)).
  apply Z.pow_le_mono_r; lia.
Defined.

Local Open Scope string_scope.

(** ** The user service on a row that exists *)

Lemma update_found_eq id data w u :
  users w !! id = Some u ->
  userService.update id data w =
  (Returns (stamped (update_fields data u) (now w)),
   logged LInfo "User updated"
     (store (<[id := stamped (update_fields data u) (now w)]> (users w))
        (sent (Update id) (sent (FindUnique id) (logged LInfo "Updating user" w))))).
Proof.
  intros Hsome. unfold userService.update.
  erewrite await_returns by apply logger_returns.
  erewrite await_returns by (apply (getById_found _ _ u); exact Hsome).
  erewrite await_returns by (apply (prisma_user_update_found _ _ _ u); exact Hsome).
  erewrite await_returns by apply logger_returns.
  reflexivity.
Qed.

Lemma patch_found_eq id data w u :
  users w !! id = Some u ->
  userService.patch id data w =
  (Returns (stamped (patch_fields data u) (now w)),
   logged LInfo "User patched"
     (store (<[id := stamped (patch_fields data u) (now w)]> (users w))
        (sent (Update id) (sent (FindUnique id) (logged LInfo "Patching user" w))))).
Proof.
  intros Hsome. unfold userService.patch.
  erewrite await_returns by apply logger_returns.
  erewrite await_returns by (apply (getById_found _ _ u); exact Hsome).
  erewrite await_returns by (apply (prisma_user_update_found _ _ _ u); exact Hsome).
  erewrite await_returns by apply logger_returns.
  reflexivity.
Qed.

Lemma delete_found_eq id w u :
  users w !! id = Some u ->
  userService.delete id w =
  (Returns tt,
   logged LInfo "User deleted"
     (store (delete id (users w))
        (sent (Delete id) (sent (FindUnique id) (logged LInfo "Deleting user" w))))).
Proof.
  intros Hsome. unfold userService.delete.
  erewrite await_returns by apply logger_returns.
  erewrite await_returns by (apply (getById_found _ _ u); exact Hsome).
  erewrite await_returns by (apply (prisma_user_delete_found _ _ u); exact Hsome).
  erewrite await_returns by apply logger_returns.
  reflexivity.
Qed.

(** X6.  Update then read: on an existing id, userService.update returns
    the row with the three fields of the request, the id and createdAt
    it had and updatedAt set to the time of the write, and a getById
    that follows returns that same row. *)
Theorem update_then_getById id data w u :
  users w !! id = Some u ->
  exists u',
    fst (userService.update id data w) = Returns u' /\
    fst (userService.getById id (snd (userService.update id data w))) = Returns u' /\
    user_firstName u' = dto_firstName data /\
    user_lastName u' = dto_lastName data /\
    user_age u' = dto_age data /\
    user_id u' = user_id u /\
    user_createdAt u' = user_createdAt u /\
    user_updatedAt u' = now w.
Proof.
  intros Hsome. rewrite (update_found_eq id data w u Hsome). cbn [fst snd].
  eexists. split; [reflexivity |]. split; [| repeat split].
  erewrite getById_found; [reflexivity |].
  cbn [users logged logger snd store]. apply lookup_insert_eq.
Qed.

Lemma update_then_getById_witness :
  exists u',
    fst (userService.update "u1" (mkUpdateUserDto "Jane" "Doe" 31) one_user_world)
      = Returns u' /\
    fst (userService.getById "u1"
           (snd (userService.update "u1" (mkUpdateUserDto "Jane" "Doe" 31)
                   one_user_world))) = Returns u' /\
    user_firstName u' = "Jane" /\ user_createdAt u' = 1%Z /\ user_updatedAt u' = 5%Z.
Proof.
  assert (Hjohn : users one_user_world !! "u1" = Some john)
    by (vm_compute; reflexivity).
  destruct (update_then_getById "u1" (mkUpdateUserDto "Jane" "Doe" 31)
              one_user_world john Hjohn)
    as (u' & Hu & Hg & Hf & _ & _ & _ & Hc & Ht).
  exists u'. repeat split; assumption.
Defined.

(** X7.  A patch that gives all three fields is an update: whatever the
    table, userService.patch returns what userService.update returns on
    the same values and leaves the same table. *)
Theorem patch_all_fields_is_update id firstName lastName age w :
  fst (userService.patch id (mkPatchUserDto (Some firstName) (Some lastName) (Some age)) w) =
  fst (userService.update id (mkUpdateUserDto firstName lastName age) w) /\
  users (snd (userService.patch id
                (mkPatchUserDto (Some firstName) (Some lastName) (Some age)) w)) =
  users (snd (userService.update id (mkUpdateUserDto firstName lastName age) w)).
Proof.
  destruct (users w !! id) as [u |] eqn:Hrow.
  - rewrite (patch_found_eq _ _ _ u Hrow), (update_found_eq _ _ _ u Hrow).
    split; reflexivity.
  - rewrite patch_not_found, update_not_found by exact Hrow.
    split; reflexivity.
Qed.



(** X9.  Delete is final: after userService.delete on an existing id
    the row is gone, and getById, update, patch and a second delete on
    that id all throw NotFoundError without writing. *)
Theorem delete_then_not_found id data fields w u :
  users w !! id = Some u ->
  let w' := snd (userService.delete id w) in
  fst (userService.delete id w) = Returns tt /\
  users w' = delete id (users w) /\
  ends_not_found id w' (userService.getById id w') /\
  ends_not_found id w' (userService.update id data w') /\
  ends_not_found id w' (userService.patch id fields w') /\
  ends_not_found id w' (userService.delete id w').
Proof.
  intros Hrow w'. subst w'. rewrite (delete_found_eq _ _ u Hrow). cbn [fst snd].
  set (w' := logged LInfo "User deleted" _).
  assert (Hgone : users w' !! id = None) by apply lookup_delete_eq.
  split; [reflexivity |]. split; [reflexivity |].
  unfold ends_not_found.
  rewrite getById_not_found, update_not_found, patch_not_found, delete_not_found
    by exact Hgone.
  repeat split; reflexivity.
Qed.

Lemma delete_then_not_found_witness :
  fst (userService.delete "u1" one_user_world) = Returns tt /\
  fst (userService.getById "u1" (snd (userService.delete "u1" one_user_world))) =
  Throws (NotFoundError "User not found").
Proof.
  assert (Hjohn : users one_user_world !! "u1" = Some john)
    by (vm_compute; reflexivity).
  destruct (delete_then_not_found "u1" (mkUpdateUserDto "a" "b" 1)
              (mkPatchUserDto None None None) one_user_world john Hjohn)
    as (Hd & _ & (Hg & _) & _).
  split; assumption.
Defined.

(** The table after each of the three calls, in both cases. *)
Lemma update_users id data w :
  users (snd (userService.update id data w)) =
  match users w !! id with
  | Some u => <[id := stamped (update_fields data u) (now w)]> (users w)
  | None => users w
  end.
Proof.
  destruct (users w !! id) as [u |] eqn:Hrow.
  - rewrite (update_found_eq _ _ _ u Hrow). reflexivity.
  - rewrite update_not_found by exact Hrow. reflexivity.
Qed.

Lemma patch_users id data w :
  users (snd (userService.patch id data w)) =
  match users w !! id with
  | Some u => <[id := stamped (patch_fields data u) (now w)]> (users w)
  | None => users w
  end.
Proof.
  destruct (users w !! id) as [u |] eqn:Hrow.
  - rewrite (patch_found_eq _ _ _ u Hrow). reflexivity.
  - rewrite patch_not_found by exact Hrow. reflexivity.
Qed.

Lemma delete_users id w :
  users (snd (userService.delete id w)) = delete id (users w).
Proof.
  destruct (users w !! id) as [u |] eqn:Hrow.
  - rewrite (delete_found_eq _ _ u Hrow). reflexivity.
  - rewrite delete_not_found by exact Hrow. cbn [snd users sent logged logger].
    symmetry. apply delete_id. exact Hrow.
Qed.

Lemma well_keyed_insert m id u :
  well_keyed m -> user_id u = id -> well_keyed (<[id := u]> m).
Proof.
  intros Hm Hu k v. rewrite lookup_insert. case_decide as Hk.
  - intros [= <-]. congruence.
  - apply Hm.
Qed.

(** X10.  update, patch and delete touch the row of their id only: every
    other row of the table is as before, update and patch keep the set
    of ids, and a table in which every row is stored under its own id
    stays so. *)
Theorem service_frame id data fields w :
  (forall id', id' <> id ->
     users (snd (userService.update id data w)) !! id' = users w !! id' /\
     users (snd (userService.patch id fields w)) !! id' = users w !! id' /\
     users (snd (userService.delete id w)) !! id' = users w !! id') /\
  dom (users (snd (userService.update id data w))) = dom (users w) /\
  dom (users (snd (userService.patch id fields w))) = dom (users w) /\
  (well_keyed (users w) ->
     well_keyed (users (snd (userService.update id data w))) /\
     well_keyed (users (snd (userService.patch id fields w))) /\
     well_keyed (users (snd (userService.delete id w)))).
Proof.
  rewrite update_users, patch_users, delete_users.
  destruct (users w !! id) as [u |] eqn:Hrow.
  - split; [| split; [| split]].
    + intros id' Hne. rewrite !lookup_insert_ne, lookup_delete_ne by congruence.
      repeat split; reflexivity.
    + apply dom_insert_lookup_L. rewrite Hrow. eauto.
    + apply dom_insert_lookup_L. rewrite Hrow. eauto.
    + intros Hk. pose proof (Hk id u Hrow) as Hid.
      split; [| split].
      * apply well_keyed_insert; [exact Hk | exact Hid].
      * apply well_keyed_insert; [exact Hk | exact Hid].
      * intros k v Hkv. apply lookup_delete_Some in Hkv as [_ Hkv].
        apply Hk. exact Hkv.
  - split; [| split; [| split]].
    + intros id' Hne. rewrite lookup_delete_ne by congruence.
      repeat split; reflexivity.
    + reflexivity.
    + reflexivity.
    + intros Hk. split; [exact Hk |]. split; [exact Hk |].
      rewrite delete_id by exact Hrow. exact Hk.
Qed.

(** X11.  The queries a service call sends: getById sends one lookup;
    update, patch and delete send the lookup of their id and then, only
    when it found a row, one write to that same id. *)
Theorem service_queries id data fields w :
  let then_write (q : Query) : list Query :=
    match users w !! id with Some _ => [q] | None => [] end in
  queries (snd (userService.getById id w)) = (queries w ++ [FindUnique id])%list /\
  queries (snd (userService.update id data w)) =
    (queries w ++ FindUnique id :: then_write (Update id))%list /\
  queries (snd (userService.patch id fields w)) =
    (queries w ++ FindUnique id :: then_write (Update id))%list /\
  queries (snd (userService.delete id w)) =
    (queries w ++ FindUnique id :: then_write (Delete id))%list.
Proof.
  intros then_write. subst then_write.
  destruct (users w !! id) as [u |] eqn:Hrow.
  - rewrite (getById_found _ _ u Hrow), (update_found_eq _ _ _ u Hrow),
      (patch_found_eq _ _ _ u Hrow), (delete_found_eq _ _ u Hrow).
    cbn. rewrite <- !app_assoc. repeat split; reflexivity.
  - rewrite getById_not_found, update_not_found, patch_not_found, delete_not_found
      by exact Hrow.
    repeat split; reflexivity.
Qed.

(** ** The user routes over HTTP *)

(** X12.  On an id without a row the four routes that take an id (GET,
    PUT, PATCH, DELETE /api/users/:id) answer 404 with code 'NOT_FOUND'
    and message 'User not found', and the table is unchanged. *)
Theorem routes_not_found {B : Type} id w
  (get : Request B) (put : Request UpdateUserDto)
  (patch : Request PatchUserDto) (del : Request unit) :
  users w !! id = None ->
  params_id (req_data get) = id -> params_id (req_data put) = id ->
  params_id (req_data patch) = id -> params_id (req_data del) = id ->
  dispatch [userController.getById] get w =
    (not_found_response, logged LWarn "User not found" (sent (FindUnique id) w)) /\
  (fst (dispatch [userController.update] put w) = not_found_response /\
   users (snd (dispatch [userController.update] put w)) = users w) /\
  (fst (dispatch [userController.patch] patch w) = not_found_response /\
   users (snd (dispatch [userController.patch] patch w)) = users w) /\
  (fst (dispatch [userController.delete] del w) = not_found_response /\
   users (snd (dispatch [userController.delete] del w)) = users w).
Proof.
  intros Hnone Hg Hu Hp Hd. cbn [dispatch].
  unfold userController.getById, userController.update, userController.patch,
    userController.delete.
  rewrite Hg, Hu, Hp, Hd.
  rewrite getById_not_found, update_not_found, patch_not_found, delete_not_found
    by exact Hnone.
  repeat split; reflexivity.
Qed.

Lemma routes_not_found_witness :
  fst (dispatch [userController.getById]
         (example_request tt "123e4567-e89b-12d3-a456-426614174000") one_user_world) =
    not_found_response /\
  fst (dispatch [userController.delete]
         (example_request tt "123e4567-e89b-12d3-a456-426614174000") one_user_world) =
    not_found_response.
Proof.
  assert (Hnone : users one_user_world !! "123e4567-e89b-12d3-a456-426614174000" = None)
    by (vm_compute; reflexivity).
  destruct (routes_not_found "123e4567-e89b-12d3-a456-426614174000" one_user_world
              (example_request tt "123e4567-e89b-12d3-a456-426614174000")
              (example_request (mkUpdateUserDto "a" "b" 1)
                 "123e4567-e89b-12d3-a456-426614174000")
              (example_request (mkPatchUserDto None None None)
                 "123e4567-e89b-12d3-a456-426614174000")
              (example_request tt "123e4567-e89b-12d3-a456-426614174000")
              Hnone ltac:(reflexivity) ltac:(reflexivity) ltac:(reflexivity)
              ltac:(reflexivity))
    as (Hg & _ & _ & (Hd & _)).
  split; [rewrite Hg; reflexivity | exact Hd].
Defined.

(** X13.  On an existing id, PUT answers 200 with the updated row and a
    GET that follows answers 200 with that same row; DELETE answers 204
    without a body and a GET that follows answers 404. *)
Theorem routes_found {B : Type} id w u
  (get : Request B) (put : Request UpdateUserDto) (del : Request unit) :
  users w !! id = Some u ->
  params_id (req_data get) = id -> params_id (req_data put) = id ->
  params_id (req_data del) = id ->
  (exists u',
     fst (dispatch [userController.update] put w) = mkResponse 200 (UserBody u') /\
     fst (dispatch [userController.getById] get
            (snd (dispatch [userController.update] put w))) =
       mkResponse 200 (UserBody u') /\
     user_firstName u' = dto_firstName (body (req_data put)) /\
     user_lastName u' = dto_lastName (body (req_data put)) /\
     user_age u' = dto_age (body (req_data put))) /\
  fst (dispatch [userController.delete] del w) = mkResponse 204 NoBody /\
  fst (dispatch [userController.getById] get
         (snd (dispatch [userController.delete] del w))) = not_found_response.
Proof.
  intros Hrow Hg Hu Hd. cbn [dispatch].
  unfold userController.getById, userController.update, userController.delete.
  rewrite Hg, Hu, Hd.
  rewrite (update_found_eq _ _ _ u Hrow), (delete_found_eq _ _ u Hrow).
  cbn [fst snd]. split.
  - eexists. split; [reflexivity |]. split; [| repeat split].
    erewrite getById_found; [reflexivity |].
    cbn [users logged logger snd store]. apply lookup_insert_eq.
  - split; [reflexivity |].
    rewrite getById_not_found; [reflexivity |].
    cbn [users logged logger snd store]. apply lookup_delete_eq.
Qed.

Lemma routes_found_witness :
  fst (dispatch [userController.delete] (example_request tt "u1") one_user_world) =
    mkResponse 204 NoBody /\
  fst (dispatch [userController.getById] (example_request tt "u1")
         (snd (dispatch [userController.delete] (example_request tt "u1")
                 one_user_world))) =
    not_found_response.
Proof.
  assert (Hjohn : users one_user_world !! "u1" = Some john)
    by (vm_compute; reflexivity).
  destruct (routes_found "u1" one_user_world john (example_request tt "u1")
              (example_request (mkUpdateUserDto "Jane" "Doe" 31) "u1")
              (example_request tt "u1")
              Hjohn ltac:(reflexivity) ltac:(reflexivity) ltac:(reflexivity))
    as (_ & Hd & Hg).
  split; assumption.
Defined.

(** ** The authentication middleware in a route *)

Lemma substring_full s : String.substring 0 (String.length s) s = s.
Proof. induction s as [| c s IH]; cbn; [reflexivity | rewrite IH; reflexivity]. Qed.


Lemma prefix_app p s : String.prefix p (p ++ s) = true.
Proof.
  induction p as [| c p IH].
  - destruct s; reflexivity.
  - change (String c p ++ s) with (String c (p ++ s)). cbn [String.prefix].
    destruct (Ascii.ascii_dec c c) as [_ | Hne]; [exact IH | contradiction].
Qed.

Lemma substring_app p s :
  String.substring (String.length p) (String.length (p ++ s) - String.length p) (p ++ s) = s.
Proof.
  induction p as [| c p IH].
  - change ("" ++ s) with s. cbn [String.length]. rewrite Nat.sub_0_r.
    apply substring_full.
  - change (String c p ++ s) with (String c (p ++ s)).
    cbn [String.length Nat.sub String.substring]. exact IH.
Qed.

Lemma substring_bearer token :
  String.substring 7 (String.length ("Bearer " ++ token) - 7) ("Bearer " ++ token) = token.
Proof. exact (substring_app "Bearer " token). Qed.

(** What the middleware does with a header ['Bearer ' + token]. *)
Lemma authMiddleware_bearer {B : Type} jwt_verify secret (req : Request B) w token :
  req_authorization req = Some ("Bearer " ++ token) ->
  authMiddleware jwt_verify secret req w =
  match verifyToken jwt_verify secret token with
  | Returns payload => (Next (authenticated req payload), w)
  | Throws err => (NextErr err, w)
  end.
Proof.
  intros Hh. unfold authMiddleware. rewrite Hh.
  rewrite (prefix_app "Bearer " token).
  rewrite (substring_bearer token). rewrite <- Hh. reflexivity.
Qed.



(** X15.  A request whose header is 'Bearer ' followed by a token that
    jwt.verify accepts goes on to the rest of the route unchanged but
    for req.user, which is the payload of that token; the middleware
    writes nothing. *)
Theorem auth_pass {B : Type} jwt_verify secret (rest : list (Handler B))
  (req : Request B) w token payload :
  req_authorization req = Some ("Bearer " ++ token) ->
  jwt_verify token secret = Returns payload ->
  dispatch (authMiddleware jwt_verify secret :: rest) req w =
  dispatch rest (authenticated req payload) w.
Proof.
  intros Hh Hv. cbn [dispatch].
  rewrite (authMiddleware_bearer _ _ _ _ token Hh).
  unfold verifyToken. rewrite Hv. reflexivity.
Qed.

Lemma auth_pass_witness :
  fst (dispatch [authMiddleware (fun _ _ => Returns (mkJwtPayload "a1" "a@b.c")) "secret";
                 userController.delete]
         (mkRequest "/api/users/u1" "DELETE" (Some "Bearer abc")
            (mkRequestData tt [] "u1") None)
         one_user_world) = mkResponse 204 NoBody.
Proof.
  rewrite (auth_pass (fun _ _ => Returns (mkJwtPayload "a1" "a@b.c")) "secret"
             [userController.delete]
             (mkRequest "/api/users/u1" "DELETE" (Some "Bearer abc")
                (mkRequestData tt [] "u1") None)
             one_user_world "abc" (mkJwtPayload "a1" "a@b.c")
             eq_refl eq_refl).
  vm_compute. reflexivity.
Defined.

(** ** The log line of the error handler *)


(** ** The authentication service *)

(** X17.  An account that was registered can log in: after a successful
    register, login with the same e-mail address and password succeeds
    and returns the same user id and e-mail address, provided
    bcrypt.compare accepts a password against its own bcrypt.hash. *)
Theorem register_then_login bcrypt_hash bcrypt_compare jwt_sign secret exp
  uuid salt data w r w' :
  (forall s p n, bcrypt_compare p (bcrypt_hash s p n) = true) ->
  authService.register bcrypt_hash jwt_sign secret exp uuid salt data w = (Returns r, w') ->
  exists r',
    fst (authService.login bcrypt_compare jwt_sign secret exp
           (mkLoginDto (register_email data) (register_password data)) w') = Returns r' /\
    auth_user_id r' = auth_user_id r /\
    auth_user_email r' = auth_user_email r /\
    auth_user_email r = register_email data.
Proof.
  intros Hlaw. unfold authService.register.
  destruct (apiUsers (auth_logger LInfo "User registration attempt" w)
              !! register_email data) eqn:Hrow; intros Hreg; [discriminate Hreg |].
  injection Hreg as <- <-. unfold authService.login.
  cbn [auth_logger apiUsers login_email login_password].
  rewrite lookup_insert_eq. cbn [apiUser_password apiUser_id apiUser_email].
  rewrite Hlaw. eexists. repeat split.
Qed.

Lemma register_then_login_witness :
  exists r',
    fst (authService.login example_compare example_sign "secret" "24h"
           (mkLoginDto (register_email alice) (register_password alice))
           (snd (authService.register example_hash example_sign "secret" "24h"
                   "a1" "salt" alice no_accounts))) = Returns r' /\
    auth_user_id r' = "a1"%string /\
    auth_user_email r' = "alice@example.com"%string /\
    "alice@example.com"%string = register_email alice.
Proof.
  apply (register_then_login example_hash example_compare example_sign "secret" "24h"
           "a1" "salt" alice no_accounts
           (mkAuthResponse "alice@example.com" "a1" "alice@example.com")).
  - intros s p n. apply String.eqb_refl.
  - vm_compute. reflexivity.
Defined.



(** X19.  register never touches an existing account: every row of the
    table is still there, unchanged, after the call, whether it returns
    or throws. *)
Theorem register_keeps_accounts bcrypt_hash jwt_sign secret exp
  uuid salt data w e u :
  apiUsers w !! e = Some u ->
  apiUsers (snd (authService.register bcrypt_hash jwt_sign secret exp
                   uuid salt data w)) !! e = Some u.
Proof.
  intros Hrow. unfold authService.register.
  destruct (apiUsers (auth_logger LInfo "User registration attempt" w)
              !! register_email data) eqn:Hnew; cbn [snd auth_logger apiUsers].
  - exact Hrow.
  - cbn [auth_logger apiUsers] in Hnew.
    rewrite lookup_insert_ne; [exact Hrow |].
    intros Heq. rewrite Heq in Hnew. congruence.
Qed.

Lemma register_keeps_accounts_witness :
  apiUsers (snd (authService.register example_hash example_sign "secret" "24h"
                   "a2" "pepper" (mkRegisterDto "bob@example.com" "Other456")
                   (snd (authService.register example_hash example_sign "secret" "24h"
                           "a1" "salt" alice no_accounts))))
    !! "alice@example.com"%string =
  Some (mkApiUser "a1" "alice@example.com" "Password123" 5 5).
Proof.
  apply (register_keeps_accounts example_hash example_sign "secret" "24h"
           "a2" "pepper" (mkRegisterDto "bob@example.com" "Other456")).
  vm_compute. reflexivity.
Defined.

(** X20.  login never changes the table of accounts, whether it
    returns or throws, and it fails in one way only: on an unknown
    e-mail address and on a wrong password alike it throws
    UnauthorizedError('Invalid credentials'), and it throws no other
    error. *)
Theorem login_failure bcrypt_compare jwt_sign secret exp data w :
  apiUsers (snd (authService.login bcrypt_compare jwt_sign secret exp data w)) =
    apiUsers w /\
  (forall err,
     fst (authService.login bcrypt_compare jwt_sign secret exp data w) = Throws err ->
     err = UnauthorizedError "Invalid credentials") /\
  (apiUsers w !! login_email data = None ->
   fst (authService.login bcrypt_compare jwt_sign secret exp data w) =
     Throws (UnauthorizedError "Invalid credentials")) /\
  (forall user,
     apiUsers w !! login_email data = Some user ->
     bcrypt_compare (login_password data) (apiUser_password user) = false ->
     fst (authService.login bcrypt_compare jwt_sign secret exp data w) =
       Throws (UnauthorizedError "Invalid credentials")).
Proof.
  unfold authService.login. cbn [auth_logger apiUsers].
  destruct (apiUsers w !! login_email data) as [user |] eqn:Hrow.
  - destruct (bcrypt_compare (login_password data) (apiUser_password user)) eqn:Hpw;
      cbn [fst snd auth_logger apiUsers].
    + split; [reflexivity |]. split; [intros err Herr; discriminate Herr |].
      split; [intros Hnone; discriminate Hnone |].
      intros user' [= <-] Hfalse. rewrite Hpw in Hfalse. discriminate Hfalse.
    + split; [reflexivity |]. split; [intros err [= <-]; reflexivity |].
      split; [intros Hnone; discriminate Hnone |]. intros user' _ _. reflexivity.
  - cbn [fst snd auth_logger apiUsers].
    split; [reflexivity |]. split; [intros err [= <-]; reflexivity |].
    split; [intros _; reflexivity |]. intros user' Hsome. discriminate Hsome.
Qed.

Lemma login_failure_witness :
  fst (authService.login example_compare example_sign "secret" "24h"
         (mkLoginDto "alice@example.com" "WrongPassword") one_account) =
    Throws (UnauthorizedError "Invalid credentials") /\
  apiUsers (snd (authService.login example_compare example_sign "secret" "24h"
                   (mkLoginDto "alice@example.com" "WrongPassword") one_account)) =
    apiUsers one_account.
Proof.
  destruct (login_failure example_compare example_sign "secret" "24h"
              (mkLoginDto "alice@example.com" "WrongPassword") one_account)
    as (Htable & _ & _ & Hwrong).
  split; [| exact Htable].
  apply (Hwrong (mkApiUser "a1" "alice@example.com" "Password123" 5 5));
    vm_compute; reflexivity.
Defined.

(** X21.  A token that register or login returned authenticates as the
    user it was issued to: on a request with the header 'Bearer ' + token
    authMiddleware passes the request on with req.user set to that
    user's id and e-mail address, provided jwt.verify returns the
    payload of the token jwt.sign made for that user with the same
    secret. *)
Theorem issued_token_authenticates {B : Type} jwt_verify bcrypt_hash bcrypt_compare
  jwt_sign secret exp uuid salt rdata ldata aw r aw'
  (rest : list (Handler B)) (req : Request B) w :
  jwt_verify (generateToken jwt_sign secret exp
                (mkJwtPayload (auth_user_id r) (auth_user_email r))) secret =
    Returns (mkJwtPayload (auth_user_id r) (auth_user_email r)) ->
  authService.register bcrypt_hash jwt_sign secret exp uuid salt rdata aw = (Returns r, aw') \/
  authService.login bcrypt_compare jwt_sign secret exp ldata aw = (Returns r, aw') ->
  req_authorization req = Some ("Bearer " ++ token r) ->
  dispatch (authMiddleware jwt_verify secret :: rest) req w =
  dispatch rest (authenticated req (mkJwtPayload (auth_user_id r) (auth_user_email r))) w.
Proof.
  intros Hlaw Hissued Hh. cbn [dispatch].
  rewrite (authMiddleware_bearer _ _ _ _ (token r) Hh). unfold verifyToken.
  assert (Htok : token r =
            generateToken jwt_sign secret exp
              (mkJwtPayload (auth_user_id r) (auth_user_email r))).
  { destruct Hissued as [Hreg | Hlog].
    - unfold authService.register in Hreg.
      destruct (apiUsers _ !! register_email rdata); [discriminate Hreg |].
      injection Hreg as <- _. reflexivity.
    - unfold authService.login in Hlog.
      destruct (apiUsers _ !! login_email ldata) as [user |]; [| discriminate Hlog].
      destruct (bcrypt_compare _ _); [| discriminate Hlog].
      injection Hlog as <- _. reflexivity. }
  rewrite Htok, Hlaw. reflexivity.
Qed.

Lemma issued_token_authenticates_witness :
  fst (dispatch [authMiddleware example_verify "secret"; userController.delete]
         (mkRequest "/api/users/u1" "DELETE" (Some "Bearer alice@example.com")
            (mkRequestData tt [] "u1") None)
         one_user_world) = mkResponse 204 NoBody.
Proof.
  assert (Hreg : authService.register example_hash example_sign "secret" "24h"
                   "a1" "salt" alice no_accounts =
                 (Returns (mkAuthResponse "alice@example.com" "a1" "alice@example.com"),
                  snd (authService.register example_hash example_sign "secret" "24h"
                         "a1" "salt" alice no_accounts)))
    by (vm_compute; reflexivity).
  rewrite (issued_token_authenticates example_verify example_hash example_compare
             example_sign "secret" "24h" "a1" "salt" alice
             (mkLoginDto "alice@example.com" "Password123") no_accounts
             (mkAuthResponse "alice@example.com" "a1" "alice@example.com")
             (snd (authService.register example_hash example_sign "secret" "24h"
                     "a1" "salt" alice no_accounts))
             [userController.delete]
             (mkRequest "/api/users/u1" "DELETE" (Some "Bearer alice@example.com")
                (mkRequestData tt [] "u1") None)
             one_user_world
             eq_refl
             (or_introl Hreg)
             eq_refl).
  vm_compute. reflexivity.
Defined.

(** ** A protected route *)

(** X22.  In a route [authMiddleware, validate(schema), update], a
    request with an accepted token and data the schema accepts, whose
    validated id has a row, is answered 200 with that row carrying the
    validated body: what is written comes from the values the schema
    returned, not from the raw request. *)
Theorem protected_update_route jwt_verify secret (schema : ZodSchema UpdateUserDto)
  (req : Request UpdateUserDto) w token payload data u :
  req_authorization req = Some ("Bearer " ++ token) ->
  jwt_verify token secret = Returns payload ->
  schema (req_data req) = Returns data ->
  users w !! params_id data = Some u ->
  exists u',
    fst (dispatch [authMiddleware jwt_verify secret; validate schema;
                   userController.update] req w) = mkResponse 200 (UserBody u') /\
    users (snd (dispatch [authMiddleware jwt_verify secret; validate schema;
                          userController.update] req w)) !! params_id data = Some u' /\
    user_id u' = user_id u /\
    user_firstName u' = dto_firstName (body data) /\
    user_lastName u' = dto_lastName (body data) /\
    user_age u' = dto_age (body data).
Proof.
  intros Hh Hv Hs Hrow. cbn [dispatch].
  rewrite (authMiddleware_bearer _ _ _ _ token Hh). unfold verifyToken. rewrite Hv.
  unfold validate. cbn [authenticated req_data]. rewrite Hs.
  unfold userController.update. cbn [req_data].
  rewrite (update_found_eq _ _ _ u Hrow). cbn [fst snd].
  eexists. split; [reflexivity |]. split; [| repeat split].
  cbn [users logged logger snd store]. apply lookup_insert_eq.
Qed.

Lemma protected_update_route_witness :
  exists u',
    fst (dispatch [authMiddleware example_verify "secret";
                   validate (fun d => Returns (mkRequestData (body d) [] "u1"));
                   userController.update]
           (mkRequest "/api/users/u1" "PUT" (Some "Bearer abc")
              (mkRequestData (mkUpdateUserDto "Jane" "Doe" 31) [] "u1") None)
           one_user_world) = mkResponse 200 (UserBody u') /\
    user_firstName u' = "Jane"%string.
Proof.
  destruct (protected_update_route example_verify "secret"
              (fun d => Returns (mkRequestData (body d) [] "u1"))
              (mkRequest "/api/users/u1" "PUT" (Some "Bearer abc")
                 (mkRequestData (mkUpdateUserDto "Jane" "Doe" 31) [] "u1") None)
              one_user_world "abc" (mkJwtPayload "a1" "abc")
              (mkRequestData (mkUpdateUserDto "Jane" "Doe" 31) [] "u1") john
              eq_refl eq_refl eq_refl ltac:(vm_compute; reflexivity))
    as (u' & Hres & _ & _ & Hfirst & _).
  exists u'. split; assumption.
Defined.

(** ** The limit of a list query *)

Lemma is_digit_value c :
  is_digit c = true -> 0 <= Z.of_nat (Ascii.nat_of_ascii c) - 48 <= 9.
Proof. unfold is_digit. intros H. apply andb_prop in H as [H1 H2]. lia. Qed.

Lemma digits_value_nonneg s : forall acc,
  all_digits s = true -> 0 <= acc -> acc <= digits_value acc s.
Proof.
  induction s as [| c s IH]; intros acc Hd Hacc; cbn [digits_value]; [lia |].
  cbn [all_digits] in Hd. apply andb_prop in Hd as [Hc Hs].
  pose proof (is_digit_value c Hc).
  etransitivity; [| apply IH; [exact Hs | lia]]. lia.
Qed.

(** [Math.min(parseInt(s, 10), 100)] on the integer [v] the string denotes. *)
Lemma Math_min_fl_100 v : 0 <= v -> Math_min (fl v) (Int 100) = Int (Z.min v 100).
Proof.
  intros Hv. destruct (Z.lt_ge_cases v (2 ^ 53)) as [Hs | Hb].
  - rewrite fl_small by (rewrite Z.abs_eq; assumption).
    unfold Math_min, le. destruct (Z.leb_spec v 100); f_equal; lia.
  - rewrite pow2_53 in Hb. rewrite Z.min_r by lia.
    pose proof (round53_ge_pow2 v 53 ltac:(lia) ltac:(rewrite pow2_53; lia)) as Hr.
    rewrite pow2_53 in Hr.
    destruct (fl_nonneg v Hv) as [-> | [-> _]]; unfold Math_min, le; [reflexivity |].
    destruct (Z.leb_spec (round53 v) 100); [lia | reflexivity].
Qed.

(** X23.  The limit of a list query is an integer between 0 and 100:
    50 when the parameter is absent, and otherwise the value of the
    digit string capped at 100, however long the string is. *)
Theorem limit_field_range val x :
  limit_field val = Returns x ->
  exists v, x = Int v /\ 0 <= v <= 100 /\
    match val with
    | None => v = 50
    | Some s => v = Z.min (digits_value 0 s) 100
    end.
Proof.
  destruct val as [s |]; cbn [limit_field].
  - destruct (matches_digits s) eqn:Hm; [| intros H; discriminate H].
    destruct s as [| c s]; [discriminate Hm |].
    cbn [matches_digits] in Hm.
    pose proof (digits_value_nonneg (String c s) 0 Hm ltac:(lia)) as Hv.
    unfold parseInt10. rewrite (Math_min_fl_100 _ Hv).
    intros [= <-]. eexists. split; [reflexivity |].
    split; [cbn [digits_value] in Hv |- *; lia | reflexivity].
  - intros [= <-]. exists 50. repeat split; lia.
Qed.

Lemma limit_field_range_witness :
  exists v, Int 100 = Int v /\ 0 <= v <= 100 /\
    v = Z.min (digits_value 0 "99999999999999999999999") 100.
Proof.
  apply (limit_field_range (Some "99999999999999999999999"%string) (Int 100)).
  vm_compute. reflexivity.
Defined.
